(** * DNA cleaning protocol (dna_cleaning_blueprint.py): a shallow embedding

    The protocol script drives an Opentrons OT-2 pipetting robot.  The robot
    runtime is external to the script, so the embedding records the commands
    the script issues to it (a trace) together with the one piece of pipette
    state the script itself reads back, the well-bottom clearance.

    Python numbers that reach the robot are floats.  The script's arithmetic
    is written once, over an interface [Arith], and interpreted twice:
    - [Binary64]: IEEE 754 binary64 (what CPython computes), with Rocq's
      primitive floats;
    - [Exact]: the real numbers, the arithmetic the calibration formula
      was fitted in. *)

From Stdlib Require Import ZArith QArith List Sorted String Bool Lia Reals Lra Floats DecimalString.
From Stdlib Require Uint63.
Import ListNotations.

Open Scope Z_scope.

(** ** Arithmetic *)

Class Arith := {
  num : Type;
  of_int : Z -> num;            (* a Python int used as a float *)
  nadd : num -> num -> num;     (* x + y *)
  nsub : num -> num -> num;     (* x - y *)
  nmul : num -> num -> num;     (* x * y *)
  ndiv : num -> num -> num;     (* x / y, true division *)
  root : num -> num             (* x ** (1/2) *)
}.

Declare Scope num_scope.
Delimit Scope num_scope with num.
Notation "x + y" := (nadd x y) : num_scope.
Notation "x - y" := (nsub x y) : num_scope.
Notation "x * y" := (nmul x y) : num_scope.
Notation "x / y" := (ndiv x y) : num_scope.

(** A decimal literal such as [2.5] or [1.42], given as the fraction it
    denotes ([25/10], [142/100]).  Both integers are exact in binary64 and
    the division rounds once, so in [Binary64] this is the double nearest to
    the decimal, which is what Python's parser produces. *)
Definition frac `{Arith} (n d : Z) : num := (of_int n / of_int d)%num.

(** [x ** 2] *)
Definition sq `{Arith} (x : num) : num := (x * x)%num.

(** Conversion of a small integer to binary64 (exact below 2^53). *)
Definition float_of_int (z : Z) : float :=
  match z with
  | Z0 => PrimFloat.zero
  | Zpos _ => PrimFloat.of_uint63 (Uint63.of_Z z)
  | Zneg p => PrimFloat.opp (PrimFloat.of_uint63 (Uint63.of_Z (Zpos p)))
  end.

(** CPython floats.  [x ** (1/2)] goes through the C library's [pow]; it is
    taken here as the correctly rounded square root, from which [pow] can
    differ in the last places.  Only bounds on a height are drawn from
    [root] below, never a property of the rounding itself. *)
Definition Binary64 : Arith := {|
  num := float;
  of_int := float_of_int;
  nadd := PrimFloat.add;
  nsub := PrimFloat.sub;
  nmul := PrimFloat.mul;
  ndiv := PrimFloat.div;
  root := PrimFloat.sqrt
|}.

Definition Exact : Arith := {|
  num := R;
  of_int := IZR;
  nadd := Rplus;
  nsub := Rminus;
  nmul := Rmult;
  ndiv := Rdiv;
  root := R_sqrt.sqrt
|}.

(** ** Liquid-height estimate (line 83)

    [dispense_height = (-2.5+((2.5**2)+4.9+1.42*volume_added)**(1/2)) + 1] *)
Definition dispense_height `{Arith} (volume_added : num) : num :=
  ((frac (-25) 10
    + root ((sq (frac 25 10) + frac 49 10) + frac 142 100 * volume_added))
   + of_int 1)%num.

(** ** Deck, wells and locations *)

Inductive pipette := p300 | p10.

(** The labware loaded at lines 129-144. *)
Inductive labware :=
  | sample_plate | resevoir | resevoir_EtOH | resevoir_trash | clean_plate
  | tiprack_7 | tiprack_8 | tiprack_9 | tiprack_10 | tiprack_11.

(** [plate['A1']] *)
Record well := Well { well_plate : labware; well_name : string }.

(** [str(i)] for a Python int. *)
Definition str (i : Z) : string := NilZero.string_of_int (Z.to_int i).

(** ['A' + str(i)] *)
Definition A (i : Z) : string := String.append "A" (str i).

Section Protocol.

Context {Ar : Arith}.

(** A [Location]: a well and an offset from its bottom centre. *)
Record location := Location {
  loc_well : well;
  loc_x : num;
  loc_y : num;
  loc_z : num
}.

(** [well.bottom(z=z)] *)
Definition bottom (w : well) (z : num) : location :=
  Location w (of_int 0) (of_int 0) z.

(** [location.move(Point(x, y, z))] *)
Definition move (l : location) (x y z : num) : location :=
  Location (loc_well l) (loc_x l + x)%num (loc_y l + y)%num (loc_z l + z)%num.

(** What a pipette is asked to aspirate from or dispense to: a bare well
    (the pipette then uses its well-bottom clearance) or a location. *)
Inductive target :=
  | AtWell (w : well)
  | AtLocation (l : location).

Inductive action := Aspirate | Dispense.

(** ** Commands issued to the robot runtime *)
Inductive command :=
  | set_rail_lights (on : bool)
  | engage
  | disengage
  | delay_minutes (m : Z)
  | delay_seconds (s : Z)
  | set_flow_rate (p : pipette) (a : action) (rate : num)
  | pick_up_tip (p : pipette) (tip : option well)
  | aspirate (p : pipette) (volume : num) (loc : location) (rate : option num)
  | dispense (p : pipette) (volume : num) (loc : location) (rate : option num)
  | blow_out (p : pipette) (loc : option location)
  | drop_tip (p : pipette)
  | return_tip (p : pipette)
  | transfer (p : pipette) (volume : num) (source : location) (dest : target)
             (blow_out_dest : bool)
  | home (p : pipette).

(** ** Robot state *)

(** [pipette.well_bottom_clearance] *)
Record clearance := Clearance { clr_aspirate : num; clr_dispense : num }.

Record robot := Robot {
  clr_p300 : clearance;
  clr_p10 : clearance;
  done : bool;                  (* the global [done] *)
  trace : list command          (* commands accepted so far, oldest first *)
}.

Definition well_bottom_clearance (s : robot) (p : pipette) : clearance :=
  match p with p300 => clr_p300 s | p10 => clr_p10 s end.

Definition set_clearance (p : pipette) (c : clearance) (s : robot) : robot :=
  match p with
  | p300 => Robot c (clr_p10 s) (done s) (trace s)
  | p10 => Robot (clr_p300 s) c (done s) (trace s)
  end.

Definition emit (s : robot) (cs : list command) : robot :=
  Robot (clr_p300 s) (clr_p10 s) (done s) (trace s ++ cs).

Definition set_done (b : bool) (s : robot) : robot :=
  Robot (clr_p300 s) (clr_p10 s) b (trace s).

(** The runtime's defaults: 1 mm clearance for aspirate and dispense. *)
Definition default_clearance : clearance := Clearance (of_int 1) (of_int 1).

Definition init : robot := Robot default_clearance default_clearance false [].

(** ** Exceptions and the protocol monad *)

Inductive exn :=
  | AttributeError (attr : string)
  | TypeError
  | NameError (var : string)
  | ZeroDivisionError
  | DriverError (c : command).   (* a fault raised by the robot runtime *)

Inductive outcome (T : Type) :=
  | Returns (v : T)
  | Raises (e : exn).
Arguments Returns {T} v.
Arguments Raises {T} e.

(** A statement runs on a robot state and either returns or raises; the
    state it leaves is kept in both cases. *)
Definition M (T : Type) : Type := robot -> outcome T * robot.

Definition ret {T} (v : T) : M T := fun s => (Returns v, s).
Definition raise {T} (e : exn) : M T := fun s => (Raises e, s).
Definition bind {T U} (m : M T) (k : T -> M U) : M U :=
  fun s => match m s with
           | (Returns v, s') => k v s'
           | (Raises e, s') => (Raises e, s')
           end.

Notation "m ;; k" := (bind m (fun _ => k))
  (at level 61, right associativity).

(** [range(lo, hi)] *)
Definition range (lo hi : Z) : list Z :=
  map (fun n => lo + Z.of_nat n) (seq 0 (Z.to_nat (hi - lo))).

(** [for x in l: body] *)
Fixpoint for_each (l : list Z) (body : Z -> M unit) : M unit :=
  match l with
  | [] => ret tt
  | x :: l' => body x ;; for_each l' body
  end.

(** The value a loop variable holds once [for x in l] is over: the last
    element, or whatever it held before when [l] is empty ([None]: unbound). *)
Definition after_loop (l : list Z) (before : option Z) : option Z :=
  last (map Some l) before.

(** Reading a local variable. *)
Definition read (var : string) (v : option Z) : M Z :=
  match v with
  | Some z => ret z
  | None => raise (NameError var)
  end.

(** ** The runtime *)

(** The runtime decides, from the commands executed so far, whether the next
    one is carried out or faults. *)
Variable driver : list command -> command -> bool.

Definition issue (c : command) : M unit :=
  fun s => if driver (trace s) c
           then (Returns tt, emit s [c])
           else (Raises (DriverError c), s).

(** [pipette.aspirate(volume, loc, rate)] *)
Definition do_aspirate (p : pipette) (volume : num) (loc : target)
    (rate : option num) : M unit :=
  fun s =>
    let l := match loc with
             | AtLocation l => l
             | AtWell w => bottom w (clr_aspirate (well_bottom_clearance s p))
             end in
    issue (aspirate p volume l rate) s.

(** [pipette.dispense(volume, loc, rate)] *)
Definition do_dispense (p : pipette) (volume : num) (loc : target)
    (rate : option num) : M unit :=
  fun s =>
    let l := match loc with
             | AtLocation l => l
             | AtWell w => bottom w (clr_dispense (well_bottom_clearance s p))
             end in
    issue (dispense p volume l rate) s.

(** ** Python objects handed to [custom_mix]

    [custom_mix] is called once with a well where its pipette goes and the
    pipette where its well goes (line 161), so its two object parameters are
    dynamically typed here.  Only a pipette has [well_bottom_clearance],
    [aspirate] and [dispense]. *)
Inductive obj :=
  | PipetteObj (p : pipette)
  | WellObj (w : well).

(** [o.well_bottom_clearance.aspirate = v] *)
Definition assign_clearance_aspirate (o : obj) (v : num) : M unit :=
  match o with
  | PipetteObj p => fun s =>
      (Returns tt,
       set_clearance p
         (Clearance v (clr_dispense (well_bottom_clearance s p))) s)
  | WellObj _ => raise (AttributeError "well_bottom_clearance")
  end.

(** [o.well_bottom_clearance.dispense = v] *)
Definition assign_clearance_dispense (o : obj) (v : num) : M unit :=
  match o with
  | PipetteObj p => fun s =>
      (Returns tt,
       set_clearance p
         (Clearance (clr_aspirate (well_bottom_clearance s p)) v) s)
  | WellObj _ => raise (AttributeError "well_bottom_clearance")
  end.

(** [o.aspirate(volume, loc, rate)] *)
Definition call_aspirate (o : obj) (volume : num) (loc : obj) (rate : num)
    : M unit :=
  match o, loc with
  | PipetteObj p, WellObj w => do_aspirate p volume (AtWell w) (Some rate)
  | PipetteObj _, PipetteObj _ => raise TypeError
  | WellObj _, _ => raise (AttributeError "aspirate")
  end.

(** [o.dispense(volume, loc, rate)] *)
Definition call_dispense (o : obj) (volume : num) (loc : obj) (rate : num)
    : M unit :=
  match o, loc with
  | PipetteObj p, WellObj w => do_dispense p volume (AtWell w) (Some rate)
  | PipetteObj _, PipetteObj _ => raise TypeError
  | WellObj _, _ => raise (AttributeError "dispense")
  end.

(** ** [custom_mix] (lines 35-60) *)
Definition custom_mix (pipette : obj) (repetitions : Z) (volume : num)
    (well : obj) (bottom_aspirate bottom_dispense : num) : M unit :=
  assign_clearance_aspirate pipette bottom_aspirate ;;
  assign_clearance_dispense pipette bottom_dispense ;;
  for_each (range 0 repetitions) (fun i =>
    call_aspirate pipette volume well (of_int 1) ;;
    call_dispense pipette volume well (of_int 1)) ;;
  assign_clearance_aspirate pipette (of_int 1) ;;
  assign_clearance_dispense pipette (of_int 1).

(** ** [stepwise_dispense] (lines 62-84) *)
Definition stepwise_dispense (pipette : pipette) (volume : num)
    (location_dispense : well) (steps : Z) : M unit :=
  if steps =? 0 then raise ZeroDivisionError else
  let step_volume := (volume / of_int steps)%num in
  for_each (range 0 steps) (fun i =>
    let volume_added := (of_int (i + 1) * step_volume)%num in
    do_dispense pipette step_volume
      (AtLocation (bottom location_dispense (dispense_height volume_added)))
      None).

(** ** [run] (lines 91-273)

    The user input variables of lines 281-285. *)
Record parameters := Parameters {
  no_samples : Z;
  vol_samples : num;
  ratio : num;
  cleanings : Z;
  vol_EB : num
}.

(** [math.ceil(no_samples / 8)]; the float quotient is exact for every
    sample count below 2^53. *)
Definition ceil_div8 (n : Z) : Z := - ((- n) / 8).

Definition flow (p : pipette) (asp disp : num) : M unit :=
  issue (set_flow_rate p Aspirate asp) ;;
  issue (set_flow_rate p Dispense disp).

(** Lines 156-172: add magnetic beads to the samples, and mix. *)
Definition add_beads (columns : Z) (vol_samples volBeads : num) : M unit :=
  for_each (range 1 (columns + 1)) (fun i =>
    issue (pick_up_tip p300 None) ;;
    (if (columns =? 1) || (columns =? 6) then
       flow p300 (of_int 9) (of_int 9) ;;
       custom_mix (WellObj (Well resevoir "A1")) 30 (of_int 15)
         (PipetteObj p300) (of_int 3) (of_int 6)
     else ret tt) ;;
    flow p300 (of_int 120) (of_int 30) ;;
    do_aspirate p300 (volBeads + of_int 10)%num
      (AtLocation (bottom (Well resevoir "A1") (of_int 3))) None ;;
    do_dispense p300 volBeads
      (AtLocation (bottom (Well sample_plate (A i)) (of_int 5))) None ;;
    do_dispense p300 (of_int 10)
      (AtLocation (bottom (Well resevoir "A1") (of_int 20))) None ;;
    issue (blow_out p300 (Some (bottom (Well resevoir "A1") (of_int 20)))) ;;
    flow p300 (of_int 60) (of_int 60) ;;
    custom_mix (PipetteObj p300) 15 (vol_samples + volBeads - of_int 10)%num
      (WellObj (Well sample_plate (A i))) (frac 6 10) (of_int 3) ;;
    issue (drop_tip p300)).

(** Lines 181-192: remove liquid from the samples. *)
Definition remove_liquid (columns : Z) (v_tot : num) : M unit :=
  for_each (range 1 (columns + 1)) (fun i =>
    let sample := Well sample_plate (A i) in
    issue (pick_up_tip p300 None) ;;
    issue (set_flow_rate p300 Aspirate (of_int 90)) ;;
    do_aspirate p300 (v_tot / of_int 2 - of_int 5)%num
      (AtLocation (bottom sample (of_int 5))) None ;;
    do_aspirate p300 (v_tot / of_int 2 - of_int 5)%num
      (AtLocation (bottom sample (of_int 2))) None ;;
    do_aspirate p300 (of_int 5)
      (AtLocation (bottom sample (frac 5 10))) None ;;
    do_aspirate p300 (of_int 5)
      (AtLocation (bottom sample (frac 2 10))) None ;;
    do_aspirate p300 (of_int 5)
      (AtLocation (bottom sample (frac 1 10))) None ;;
    do_aspirate p300 (of_int 5)
      (AtLocation (bottom sample (of_int 0))) None ;;
    issue (drop_tip p300)).

(** Lines 199-203: add ethanol. *)
Definition add_ethanol (columns : Z) : M unit :=
  for_each (range 1 (columns + 1)) (fun i =>
    issue (pick_up_tip p300 (Some (Well tiprack_7 (A i)))) ;;
    do_aspirate p300 (of_int 190)
      (AtLocation (bottom (Well resevoir_EtOH (A i)) (of_int 3)))
      (Some (of_int 3)) ;;
    stepwise_dispense p300 (of_int 190) (Well sample_plate (A i)) 10 ;;
    issue (return_tip p300)).

(** Lines 209-228: remove ethanol.  [i] is the variable of that name as the
    loops before this one left it. *)
Definition remove_ethanol (columns j cleanings : Z) (i : option Z) : M unit :=
  flow p300 (of_int 90) (of_int 100) ;;
  for_each (range 1 (columns + 1)) (fun k =>
    issue (pick_up_tip p300 (Some (Well tiprack_7 (A k)))) ;;
    let center_location := bottom (Well sample_plate (A k)) (frac 3 10) in
    let center_location_higher :=
      move center_location (of_int 0) (of_int 0) (frac 12 10) in
    let adjusted_location1 :=
      move center_location (frac 3 10) (frac 3 10) (frac 1 10) in
    let adjusted_location2 :=
      move center_location (frac (-3) 10) (frac (-3) 10) (frac 1 10) in
    do_aspirate p300 (of_int 150) (AtLocation center_location_higher) None ;;
    do_aspirate p300 (of_int 30) (AtLocation center_location) None ;;
    do_aspirate p300 (of_int 20) (AtLocation adjusted_location1) None ;;
    do_aspirate p300 (of_int 20) (AtLocation adjusted_location2) None ;;
    bind (read "i" i) (fun i =>
    do_dispense p300 (of_int 220)
      (AtLocation (bottom (Well resevoir_trash (A i)) (of_int 3))) None) ;;
    if j <? cleanings then issue (return_tip p300)
    else if j =? cleanings then issue (drop_tip p300)
    else ret tt).

(** Lines 195-228: one pass of the cleaning loop, for cycle [j]. *)
Definition clean (columns cleanings : Z) (i : option Z) (j : Z) : M unit :=
  flow p300 (of_int 60) (of_int 30) ;;
  add_ethanol columns ;;
  let i := after_loop (range 1 (columns + 1)) i in
  (if columns <? 4 then issue (delay_seconds 30) else ret tt) ;;
  remove_ethanol columns j cleanings i.

(** Lines 235-247: add EB and mix. *)
Definition add_EB (columns : Z) (vol_EB : num) : M unit :=
  for_each (range 1 (columns + 1)) (fun i =>
    flow p300 (of_int 120) (of_int 120) ;;
    issue (pick_up_tip p300 None) ;;
    issue (transfer p300 vol_EB (bottom (Well resevoir "A3") (of_int 3))
             (AtWell (Well sample_plate (A i))) true) ;;
    custom_mix (PipetteObj p300) 30 (vol_EB - of_int 3)%num
      (WellObj (Well sample_plate (A i))) (frac 4 10) (frac 15 10) ;;
    issue (drop_tip p300)).

(** Lines 254-264: transfer the purified samples to a clean plate. *)
Definition transfer_samples (columns : Z) (vol_EB : num) : M unit :=
  flow p10 (of_int 3) (of_int 10) ;;
  for_each (range 1 (columns + 1)) (fun i =>
    issue (pick_up_tip p10 None) ;;
    issue (transfer p10 (vol_EB - of_int 3)%num
             (bottom (Well sample_plate (A i)) (of_int 1))
             (AtLocation (bottom (Well clean_plate (A i)) (of_int 1)))
             false) ;;
    issue (blow_out p10 None) ;;
    issue (drop_tip p10)).

(** The whole run.  Loading the labware and instruments (lines 127-145)
    issues no motion and is recorded by the types [labware] and [pipette];
    the door monitor started at line 124 and joined at line 271 is
    [check_pause] below; the closing [print] is left out.  A well is
    looked up by name and the lookup is taken to succeed: the plates and
    racks have columns 1 to 12, which covers runs of up to 96 samples; what
    is said of a run that returns is said for such inputs. *)
Definition run (u : parameters) : M unit :=
  issue (set_rail_lights true) ;;
  (fun s => (Returns tt, set_done false s)) ;;
  issue disengage ;;
  let columns := ceil_div8 (no_samples u) in
  let volBeads := (vol_samples u * ratio u)%num in
  add_beads columns (vol_samples u) volBeads ;;
  issue (delay_minutes 5) ;;
  issue engage ;;
  issue (delay_minutes 5) ;;
  let v_tot := (volBeads + vol_samples u)%num in
  remove_liquid columns v_tot ;;
  let i := after_loop (range 1 (columns + 1)) None in
  for_each (range 1 (cleanings u + 1)) (clean columns (cleanings u) i) ;;
  issue (delay_minutes 5) ;;
  issue disengage ;;
  add_EB columns (vol_EB u) ;;
  issue engage ;;
  issue (delay_minutes 1) ;;
  transfer_samples columns (vol_EB u) ;;
  issue (home p300) ;;
  issue disengage ;;
  (fun s => (Returns tt, set_done true s)).

End Protocol.

Arguments Returns {Ar T} v.
Arguments Raises {Ar T} e.

(** The runtime that carries out every command. *)
Definition accepting `{Arith} (driver : list command -> command -> bool)
  : Prop := forall h c, driver h c = true.

Definition obliging `{Arith} : list command -> command -> bool :=
  fun _ _ => true.

(** The default user input (lines 281-285). *)
Definition defaults `{Arith} : parameters :=
  Parameters 20 (of_int 20) (frac 8 10) 1 (of_int 15).

(** ** The door monitor: [check_pause] (lines 101-121)

    It runs on a thread of its own, started at line 124.  What it reads of
    the rest of the world is given to it here as a list of observations, one
    for each pass. *)
Module Monitor.

Inductive event :=
  | pause                       (* protocol.pause() *)
  | resume                      (* protocol.resume() *)
  | print (text : string)
  | sleep (seconds : Z).        (* time.sleep(1) *)

Record observation := Observation {
  door_closed_104 : bool;       (* protocol.door_closed, read at line 104 *)
  door_closed_108 : bool;       (* the same, read at line 108 *)
  door_closed_112 : bool;       (* the same, read at line 112 *)
  done_120 : bool;              (* the global [done], read at line 120 *)
  main_alive : bool             (* threading.main_thread().is_alive() *)
}.

(** The text printed at line 113. *)
Definition notice : string :=
  "Protocol paused. Close the door to the robot to resume.".

(** Lines 104-115: one pass, from the value of [paused] to its new value
    and the calls made. *)
Definition check_once (o : observation) (paused : bool) : bool * list event :=
  let '(paused, e1) :=
    if negb paused && negb (door_closed_104 o)
    then (true, [pause]) else (paused, []) in
  let '(paused, e2) :=
    if paused && door_closed_108 o
    then (false, [resume]) else (paused, []) in
  let e3 :=
    if paused && negb (door_closed_112 o)
    then [print notice] else [] in
  (paused, e1 ++ e2 ++ e3 ++ [sleep 1]).

(** The recursion of line 121, one level for each observation. *)
Fixpoint check_pause (world : list observation) (paused : bool)
    : bool * list event :=
  match world with
  | [] => (paused, [])
  | o :: world' =>
      let '(paused, es) := check_once o paused in
      let run_canceled := negb (main_alive o) in
      if negb (done_120 o) && negb run_canceled then
        let '(paused, es') := check_pause world' paused in
        (paused, es ++ es')
      else (paused, es)
  end.

Definition is_pause (e : event) : bool :=
  match e with pause => true | _ => false end.

Definition is_resume (e : event) : bool :=
  match e with resume => true | _ => false end.

(** The door reads the same at every read of one pass. *)
Definition door (o : observation) (closed : bool) : Prop :=
  door_closed_104 o = closed /\ door_closed_108 o = closed
  /\ door_closed_112 o = closed.

End Monitor.

(** ** Reading a trace *)

Section Traces.

Context {Ar : Arith}.

(** The volumes dispensed, in order. *)
Definition dispensed (cs : list command) : list num :=
  flat_map (fun c => match c with
                     | dispense _ v _ _ => [v]
                     | _ => []
                     end) cs.


(** [sum(l)] *)
Definition total (l : list num) : num := fold_left nadd l (of_int 0).

Definition labware_eqb (a b : labware) : bool :=
  match a, b with
  | sample_plate, sample_plate | resevoir, resevoir
  | resevoir_EtOH, resevoir_EtOH | resevoir_trash, resevoir_trash
  | clean_plate, clean_plate | tiprack_7, tiprack_7 | tiprack_8, tiprack_8
  | tiprack_9, tiprack_9 | tiprack_10, tiprack_10 | tiprack_11, tiprack_11
    => true
  | _, _ => false
  end.

(** The dispenses that go to a given piece of labware: volume and place. *)
Definition dispenses_into (plate : labware) (cs : list command)
    : list (num * location) :=
  flat_map (fun c => match c with
                     | dispense _ v l _ =>
                         if labware_eqb (well_plate (loc_well l)) plate
                         then [(v, l)] else []
                     | _ => []
                     end) cs.

(** The aspirations taken from a given piece of labware. *)
Definition aspirates_from (plate : labware) (cs : list command)
    : list (num * location) :=
  flat_map (fun c => match c with
                     | aspirate _ v l _ =>
                         if labware_eqb (well_plate (loc_well l)) plate
                         then [(v, l)] else []
                     | _ => []
                     end) cs.

(** What becomes of the tips: the [return_tip] and [drop_tip] commands. *)
Definition tip_fates (cs : list command) : list command :=
  flat_map (fun c => match c with
                     | return_tip _ | drop_tip _ => [c]
                     | _ => []
                     end) cs.

End Traces.

(** The exact value of a finite binary64 number. *)
Definition exact_value (x : float) : option Q :=
  match Prim2SF x with
  | S754_zero _ => Some 0%Q
  | S754_finite sg m e =>
      let q := if 0 <=? e then inject_Z (Zpos m * 2 ^ e)
               else (Zpos m # Pos.pow 2 (Z.to_pos (- e)))%Q in
      Some (if sg then Qopp q else q)
  | _ => None
  end.

(** The exact sum of a list of binary64 numbers. *)
Fixpoint exact_sum (l : list float) : option Q :=
  match l with
  | [] => Some 0%Q
  | x :: l' =>
      match exact_value x, exact_sum l' with
      | Some q, Some r => Some (Qred (q + r))
      | _, _ => None
      end
  end.

(** ** Runtimes *)

(** A runtime on which every aspirate faults. *)
Definition jammed `{Arith} : list command -> command -> bool :=
  fun _ c => match c with aspirate _ _ _ _ => false | _ => true end.

(** ** What a statement does *)

Section Behaviour.

Context {Ar : Arith}.

(** [m] returns, and all it does is issue the commands [cs]. *)
Definition emits (m : M unit) (cs : list command) : Prop :=
  forall s, m s = (Returns tt, emit s cs).

(** [m] leaves the clearances of both pipettes as it finds them, and raises
    only what the runtime raises. *)
Definition keeps {T} (m : M T) : Prop :=
  forall s,
    (forall q, well_bottom_clearance (snd (m s)) q = well_bottom_clearance s q)
    /\ match fst (m s) with
       | Returns _ => True
       | Raises e => exists c, e = DriverError c
       end.

(** [m] returns, and all it does is put the clearance of [p300] back to the
    default and issue the commands [cs]. *)
Definition resets (m : M unit) (cs : list command) : Prop :=
  forall s, m s = (Returns tt, emit (set_clearance p300 default_clearance s) cs).

End Behaviour.

(** ** The loops as lists of commands *)

Section Loops.

Context {Ar : Arith}.

(** The body of the loop of [custom_mix] (lines 57-58). *)
Definition mixing (p : pipette) (volume : num) (w : well)
    (bottom_aspirate bottom_dispense : num) : list command :=
  [aspirate p volume (bottom w bottom_aspirate) (Some (of_int 1));
   dispense p volume (bottom w bottom_dispense) (Some (of_int 1))].

(** The body of the loop of lines 156-172 for column [i], when the pre-mix
    of line 161 is not reached. *)
Definition binding (vol_samples volBeads : num) (i : Z) : list command :=
  [pick_up_tip p300 None;
   set_flow_rate p300 Aspirate (of_int 120);
   set_flow_rate p300 Dispense (of_int 30);
   aspirate p300 (volBeads + of_int 10)%num
     (bottom (Well resevoir "A1") (of_int 3)) None;
   dispense p300 volBeads (bottom (Well sample_plate (A i)) (of_int 5)) None;
   dispense p300 (of_int 10) (bottom (Well resevoir "A1") (of_int 20)) None;
   blow_out p300 (Some (bottom (Well resevoir "A1") (of_int 20)));
   set_flow_rate p300 Aspirate (of_int 60);
   set_flow_rate p300 Dispense (of_int 60)]
  ++ flat_map (fun _ =>
       mixing p300 (vol_samples + volBeads - of_int 10)%num
         (Well sample_plate (A i)) (frac 6 10) (of_int 3))
       (range 0 15)
  ++ [drop_tip p300].

(** The body of the loop of lines 199-203 as a list of commands, for
    column [i]. *)
Definition addition (i : Z) : list command :=
  [pick_up_tip p300 (Some (Well tiprack_7 (A i)));
   aspirate p300 (of_int 190)
     (bottom (Well resevoir_EtOH (A i)) (of_int 3)) (Some (of_int 3))]
  ++ map (fun n =>
       dispense p300 (of_int 190 / of_int 10)%num
         (bottom (Well sample_plate (A i))
            (dispense_height (of_int n * (of_int 190 / of_int 10))%num))
         None) (range 1 (10 + 1))
  ++ [return_tip p300].

(** What the removal loop does with the tip of a column in cycle [j]. *)
Definition tip_fate (j cleanings : Z) : list command :=
  if j <? cleanings then [return_tip p300]
  else if j =? cleanings then [drop_tip p300]
  else [].

(** The body of the loop of lines 211-228 as a list of commands, for
    column [k] and with the variable [i] holding [i]. *)
Definition removal (j cleanings i k : Z) : list command :=
  let center_location := bottom (Well sample_plate (A k)) (frac 3 10) in
  [pick_up_tip p300 (Some (Well tiprack_7 (A k)));
   aspirate p300 (of_int 150)
     (move center_location (of_int 0) (of_int 0) (frac 12 10)) None;
   aspirate p300 (of_int 30) center_location None;
   aspirate p300 (of_int 20)
     (move center_location (frac 3 10) (frac 3 10) (frac 1 10)) None;
   aspirate p300 (of_int 20)
     (move center_location (frac (-3) 10) (frac (-3) 10) (frac 1 10)) None;
   dispense p300 (of_int 220)
     (bottom (Well resevoir_trash (A i)) (of_int 3)) None]
  ++ tip_fate j cleanings.

(** One cleaning cycle (lines 196-228) as a list of commands: the removal
    loop runs with [i] holding [columns]. *)
Definition cycle (columns cleanings j : Z) : list command :=
  [set_flow_rate p300 Aspirate (of_int 60);
   set_flow_rate p300 Dispense (of_int 30)]
  ++ flat_map addition (range 1 (columns + 1))
  ++ (if columns <? 4 then [delay_seconds 30] else [])
  ++ [set_flow_rate p300 Aspirate (of_int 90);
      set_flow_rate p300 Dispense (of_int 100)]
  ++ flat_map (removal j cleanings columns) (range 1 (columns + 1)).

End Loops.

(** ** [get_values] (lines 27-33) *)

(** The object that [json.loads] reads from the literal of line 32. *)
Definition _all_values : list (string * string) :=
  [("mag_mod"%string, "magnetic module"%string)].

(** [d[n]]: the value, or the missing key. *)
Fixpoint subscript (d : list (string * string)) (n : string)
    : string + string :=
  match d with
  | [] => inr n
  | (k, v) :: d' => if String.eqb k n then inl v else subscript d' n
  end.

Inductive values :=
  | Values (vs : list string)
  | KeyError (key : string).

(** [[_all_values[n] for n in names]] *)
Fixpoint get_values (names : list string) : values :=
  match names with
  | [] => Values []
  | n :: names' =>
      match subscript _all_values n with
      | inr key => KeyError key
      | inl v =>
          match get_values names' with
          | Values vs => Values (v :: vs)
          | KeyError key => KeyError key
          end
      end
  end.

(** ** The run as a list of commands *)

Section Nominal.

Context {Ar : Arith}.

(** What [m] does on the state [s], under any runtime: it issues the commands
    [cs] in order and stops at the first one the runtime refuses, raising its
    fault; when none is refused it returns ([ending] is [None]) or raises
    [e] ([ending] is [Some e]). *)
Definition follows_at (driver : list command -> command -> bool)
    (ending : option exn) (m : M unit) (cs : list command) (s : robot)
    : Prop :=
  match m s with
  | (Returns _, s') => ending = None /\ trace s' = trace s ++ cs
  | (Raises e, s') =>
      (exists pre c post,
         cs = pre ++ c :: post /\ trace s' = trace s ++ pre
         /\ e = DriverError c /\ driver (trace s') c = false)
      \/ (ending = Some e /\ trace s' = trace s ++ cs)
  end.

Definition follows (driver : list command -> command -> bool)
    (ending : option exn) (m : M unit) (cs : list command) : Prop :=
  forall s, follows_at driver ending m cs s.

(** [m] leaves the global [done] alone. *)
Definition quiet {T} (m : M T) : Prop :=
  forall s, done (snd (m s)) = done s.

(** [m] sets [done] when it returns, and leaves it alone when it raises. *)
Definition finishes (m : M unit) : Prop :=
  forall s, match m s with
            | (Returns _, s') => done s' = true
            | (Raises _, s') => done s' = done s
            end.

(** The body of the loop of lines 181-192 for column [i]. *)
Definition draining (v_tot : num) (i : Z) : list command :=
  let sample := Well sample_plate (A i) in
  [pick_up_tip p300 None;
   set_flow_rate p300 Aspirate (of_int 90);
   aspirate p300 (v_tot / of_int 2 - of_int 5)%num
     (bottom sample (of_int 5)) None;
   aspirate p300 (v_tot / of_int 2 - of_int 5)%num
     (bottom sample (of_int 2)) None;
   aspirate p300 (of_int 5) (bottom sample (frac 5 10)) None;
   aspirate p300 (of_int 5) (bottom sample (frac 2 10)) None;
   aspirate p300 (of_int 5) (bottom sample (frac 1 10)) None;
   aspirate p300 (of_int 5) (bottom sample (of_int 0)) None;
   drop_tip p300].

(** The body of the loop of lines 235-247 for column [i]. *)
Definition elution (vol_EB : num) (i : Z) : list command :=
  [set_flow_rate p300 Aspirate (of_int 120);
   set_flow_rate p300 Dispense (of_int 120);
   pick_up_tip p300 None;
   transfer p300 vol_EB (bottom (Well resevoir "A3") (of_int 3))
     (AtWell (Well sample_plate (A i))) true]
  ++ flat_map (fun _ =>
       mixing p300 (vol_EB - of_int 3)%num (Well sample_plate (A i))
         (frac 4 10) (frac 15 10))
       (range 0 30)
  ++ [drop_tip p300].

(** The body of the loop of lines 256-264 for column [i]. *)
Definition handover (vol_EB : num) (i : Z) : list command :=
  [pick_up_tip p10 None;
   transfer p10 (vol_EB - of_int 3)%num
     (bottom (Well sample_plate (A i)) (of_int 1))
     (AtLocation (bottom (Well clean_plate (A i)) (of_int 1))) false;
   blow_out p10 None;
   drop_tip p10].


(** The condition of line 158. *)
Definition premix (columns : Z) : bool := (columns =? 1) || (columns =? 6).

(** Lines 156-264 when the pre-mix is not reached. *)
Definition phases (u : parameters) : list command :=
  let columns := ceil_div8 (no_samples u) in
  let volBeads := (vol_samples u * ratio u)%num in
  let v_tot := (volBeads + vol_samples u)%num in
  flat_map (binding (vol_samples u) volBeads) (range 1 (columns + 1))
  ++ [delay_minutes 5; engage; delay_minutes 5]
  ++ flat_map (draining v_tot) (range 1 (columns + 1))
  ++ flat_map (cycle columns (cleanings u)) (range 1 (cleanings u + 1))
  ++ [delay_minutes 5; disengage]
  ++ flat_map (elution (vol_EB u)) (range 1 (columns + 1))
  ++ [engage; delay_minutes 1]
  ++ [set_flow_rate p10 Aspirate (of_int 3);
      set_flow_rate p10 Dispense (of_int 10)]
  ++ flat_map (handover (vol_EB u)) (range 1 (columns + 1))
  ++ [home p300; disengage].

(** The commands of a whole run, in order: with 1 or 6 columns it ends
    where line 161 raises. *)
Definition protocol (u : parameters) : list command :=
  [set_rail_lights true; disengage]
  ++ (if premix (ceil_div8 (no_samples u))
      then [pick_up_tip p300 None;
            set_flow_rate p300 Aspirate (of_int 9);
            set_flow_rate p300 Dispense (of_int 9)]
      else phases u).

Definition ending (u : parameters) : option exn :=
  if premix (ceil_div8 (no_samples u))
  then Some (AttributeError "well_bottom_clearance")
  else None.

(** Which pipettes have a tip on after the commands [cs], starting from
    [on] ([p300], [p10]); [None] when a tip is picked up onto a tip, put
    away from a bare pipette, or liquid is handled without one. *)
Fixpoint tips (on : bool * bool) (cs : list command) : option (bool * bool) :=
  match cs with
  | [] => Some on
  | c :: cs' =>
      let has p := match p with p300 => fst on | p10 => snd on end in
      let put p b := match p with
                     | p300 => (b, snd on)
                     | p10 => (fst on, b)
                     end in
      match c with
      | pick_up_tip p _ => if has p then None else tips (put p true) cs'
      | drop_tip p | return_tip p =>
          if has p then tips (put p false) cs' else None
      | aspirate p _ _ _ | dispense p _ _ _ | blow_out p _
      | transfer p _ _ _ _ => if has p then tips on cs' else None
      | _ => tips on cs'
      end
  end.



(** The heights above the well bottom of the dispenses, in order. *)
Definition heights (cs : list command) : list num :=
  flat_map (fun c => match c with
                     | dispense _ _ l _ => [loc_z l]
                     | _ => []
                     end) cs.

(** The commands that handle liquid or tips. *)
Definition pipetting (cs : list command) : list command :=
  flat_map (fun c => match c with
                     | pick_up_tip _ _ | aspirate _ _ _ _ | dispense _ _ _ _
                     | blow_out _ _ | drop_tip _ | return_tip _
                     | transfer _ _ _ _ _ => [c]
                     | _ => []
                     end) cs.

End Nominal.


(** Consistency of the calls of [pause] and [resume] with the flag
    [paused]: a pause only when it is clear, a resume only when it is set;
    the result is the flag at the end. *)
Fixpoint alternates (paused : bool) (es : list Monitor.event) : option bool :=
  match es with
  | [] => Some paused
  | Monitor.pause :: es' => if paused then None else alternates true es'
  | Monitor.resume :: es' => if paused then alternates false es' else None
  | _ :: es' => alternates paused es'
  end.

(** * Properties *)

Notation "m ;; k" := (bind m (fun _ => k))
  (at level 61, right associativity).

(** ** Ranges and loops *)

Lemma range_length lo hi : List.length (range lo hi) = Z.to_nat (hi - lo).
Proof. unfold range. now rewrite length_map, length_seq. Qed.

Lemma range_empty lo hi : hi <= lo -> range lo hi = [].
Proof.
  intros Hle. unfold range.
  replace (Z.to_nat (hi - lo)) with 0%nat by lia. reflexivity.
Qed.

Lemma range_shift lo hi d :
  range (lo + d) (hi + d) = map (fun i => i + d) (range lo hi).
Proof.
  unfold range. rewrite map_map.
  replace (hi + d - (lo + d)) with (hi - lo) by lia.
  apply map_ext. intros n. lia.
Qed.

Lemma seq_snoc (a n : nat) : seq a (S n) = seq a n ++ [(a + n)%nat].
Proof.
  revert a. induction n as [|n IH]; intros a.
  - simpl. now rewrite Nat.add_0_r.
  - change (seq a (S (S n))) with (a :: seq (S a) (S n)).
    rewrite IH. simpl. now rewrite Nat.add_succ_r.
Qed.

Lemma range_snoc lo hi : lo <= hi -> range lo (hi + 1) = range lo hi ++ [hi].
Proof.
  intros Hle. unfold range.
  replace (Z.to_nat (hi + 1 - lo)) with (S (Z.to_nat (hi - lo))) by lia.
  rewrite seq_snoc, map_app. simpl. do 2 f_equal. lia.
Qed.

Lemma in_range lo hi x : In x (range lo hi) <-> lo <= x < hi.
Proof.
  unfold range. rewrite in_map_iff. split.
  - intros [n [<- Hn]]. apply in_seq in Hn. lia.
  - intros Hx. exists (Z.to_nat (x - lo)). split; [lia|].
    apply in_seq. lia.
Qed.

(** After [for i in range(1, columns+1)] the variable [i] holds [columns],
    provided the loop ran at all. *)
Lemma after_loop_columns columns before :
  1 <= columns -> after_loop (range 1 (columns + 1)) before = Some columns.
Proof.
  intros Hc. unfold after_loop.
  rewrite range_snoc by lia. rewrite map_app. simpl.
  apply last_last.
Qed.

Lemma flat_map_singleton {X Y} (f : X -> Y) (l : list X) :
  flat_map (fun x => [f x]) l = map f l.
Proof. induction l as [|x l IH]; simpl; congruence. Qed.

Lemma flat_map_nil {X Y} (l : list X) : flat_map (fun _ => @nil Y) l = [].
Proof. induction l as [|x l IH]; simpl; auto. Qed.

(** ** Commands under a runtime that carries them all out *)

Section Accepting.

Context {Ar : Arith}.
Variable driver : list command -> command -> bool.
Hypothesis driver_accepts : accepting driver.

Lemma emit_nil s : emit s [] = s.
Proof. destruct s. unfold emit. simpl. now rewrite app_nil_r. Qed.

Lemma emit_app s a b : emit (emit s a) b = emit s (a ++ b).
Proof. unfold emit. simpl. now rewrite app_assoc. Qed.

Lemma emits_ret : emits (ret tt) [].
Proof. intros s. unfold ret. now rewrite emit_nil. Qed.

Lemma emits_issue c : emits (issue driver c) [c].
Proof. intros s. unfold issue. now rewrite driver_accepts. Qed.

Lemma emits_seq m k a b : emits m a -> emits k b -> emits (m ;; k) (a ++ b).
Proof.
  intros Hm Hk s. unfold bind. rewrite Hm, Hk. now rewrite emit_app.
Qed.

Lemma emits_for_each l body f :
  (forall x, In x l -> emits (body x) (f x)) ->
  emits (for_each l body) (flat_map f l).
Proof.
  induction l as [|x l IH]; intros Hb; simpl.
  - apply emits_ret.
  - apply emits_seq.
    + apply Hb. now left.
    + apply IH. intros y Hy. apply Hb. now right.
Qed.

Lemma emits_flow p a d :
  emits (flow driver p a d) [set_flow_rate p Aspirate a; set_flow_rate p Dispense d].
Proof.
  unfold flow. apply (emits_seq _ _ [_] [_]); apply emits_issue.
Qed.

Lemma emits_aspirate p v l r :
  emits (do_aspirate driver p v (AtLocation l) r) [aspirate p v l r].
Proof. intros s. unfold do_aspirate. apply emits_issue. Qed.

Lemma emits_dispense p v l r :
  emits (do_dispense driver p v (AtLocation l) r) [dispense p v l r].
Proof. intros s. unfold do_dispense. apply emits_issue. Qed.

(** [stepwise_dispense] as a list of commands. *)
Lemma emits_stepwise_dispense pipette volume w steps :
  steps <> 0 ->
  emits (stepwise_dispense driver pipette volume w steps)
    (map (fun i =>
            dispense pipette (volume / of_int steps)%num
              (bottom w (dispense_height (of_int i * (volume / of_int steps))%num))
              None)
         (range 1 (steps + 1))).
Proof.
  intros Hs. unfold stepwise_dispense.
  destruct (Z.eqb_spec steps 0) as [->|_]; [contradiction|].
  change (range 1 (steps + 1)) with (range (0 + 1) (steps + 1)).
  rewrite range_shift, map_map, <- flat_map_singleton.
  apply emits_for_each. intros i _. apply emits_dispense.
Qed.

Ltac emits_step :=
  first [ apply emits_issue | apply emits_aspirate | apply emits_dispense
        | apply emits_flow | apply emits_ret ].

Ltac emits_all :=
  repeat first
    [ emits_step
    | apply (emits_seq _ _ [_] _); [emits_step|]
    | apply (emits_seq _ _ [_; _] _); [emits_step|] ].

(** Lines 181-192 as a list of commands. *)
Lemma emits_remove_liquid columns v_tot :
  emits (remove_liquid driver columns v_tot)
    (flat_map (fun i =>
       let sample := Well sample_plate (A i) in
       [pick_up_tip p300 None;
        set_flow_rate p300 Aspirate (of_int 90);
        aspirate p300 (v_tot / of_int 2 - of_int 5)%num
          (bottom sample (of_int 5)) None;
        aspirate p300 (v_tot / of_int 2 - of_int 5)%num
          (bottom sample (of_int 2)) None;
        aspirate p300 (of_int 5) (bottom sample (frac 5 10)) None;
        aspirate p300 (of_int 5) (bottom sample (frac 2 10)) None;
        aspirate p300 (of_int 5) (bottom sample (frac 1 10)) None;
        aspirate p300 (of_int 5) (bottom sample (of_int 0)) None;
        drop_tip p300])
      (range 1 (columns + 1))).
Proof.
  unfold remove_liquid. apply emits_for_each. intros i _. cbv zeta.
  emits_all.
Qed.

Lemma emits_add_ethanol columns :
  emits (add_ethanol driver columns)
    (flat_map addition (range 1 (columns + 1))).
Proof.
  unfold add_ethanol. apply emits_for_each. intros i _. unfold addition.
  apply (emits_seq _ _ [_] _); [emits_step|].
  apply (emits_seq _ _ [_] _); [emits_step|].
  apply emits_seq; [|emits_step].
  apply emits_stepwise_dispense. lia.
Qed.

Lemma emits_read_bind v (k : Z -> M unit) cs :
  emits (k v) cs -> emits (bind (read "i" (Some v)) k) cs.
Proof. intros Hk s. unfold bind, read, ret. apply Hk. Qed.

Lemma emits_remove_ethanol columns j cleanings i :
  emits (remove_ethanol driver columns j cleanings (Some i))
    ([set_flow_rate p300 Aspirate (of_int 90);
      set_flow_rate p300 Dispense (of_int 100)]
     ++ flat_map (removal j cleanings i) (range 1 (columns + 1))).
Proof.
  unfold remove_ethanol. apply emits_seq; [emits_step|].
  apply emits_for_each. intros k _. cbv zeta. unfold removal.
  do 5 (apply (emits_seq _ _ [_] _); [emits_step|]).
  apply (emits_seq _ _ [_] _).
  - apply emits_read_bind. emits_step.
  - unfold tip_fate.
    destruct (j <? cleanings); [emits_step|].
    destruct (j =? cleanings); emits_step.
Qed.

(** With no column to treat, the removal loop does not run and [i] is not
    read. *)
Lemma emits_remove_ethanol_none columns j cleanings i :
  columns <= 0 ->
  emits (remove_ethanol driver columns j cleanings i)
    [set_flow_rate p300 Aspirate (of_int 90);
     set_flow_rate p300 Dispense (of_int 100)].
Proof.
  intros Hc. unfold remove_ethanol. rewrite range_empty by lia.
  apply (emits_seq _ _ [_; _] []); emits_step.
Qed.

Lemma emits_clean columns cleanings i j :
  emits (clean driver columns cleanings i j) (cycle columns cleanings j).
Proof.
  unfold clean, cycle. apply emits_seq; [emits_step|].
  apply emits_seq; [apply emits_add_ethanol|]. cbv zeta.
  apply emits_seq; [destruct (columns <? 4); emits_step|].
  destruct (Z_le_gt_dec columns 0) as [Hc|Hc].
  - rewrite (range_empty 1 (columns + 1)) by lia. simpl flat_map.
    rewrite app_nil_r. apply emits_remove_ethanol_none. exact Hc.
  - rewrite after_loop_columns by lia. apply emits_remove_ethanol.
Qed.

End Accepting.

Lemma obliging_accepts `{Arith} : accepting obliging.
Proof. intros h c. reflexivity. Qed.

(** ** The liquid-height estimate *)

Lemma dispense_height_exact (V : R) :
  @dispense_height Exact V
  = (-2.5 + R_sqrt.sqrt (2.5 * 2.5 + 4.9 + 1.42 * V) + 1)%R.
Proof.
  unfold dispense_height, frac, sq. simpl.
  replace (-25 / 10)%R with (-2.5)%R by lra.
  replace (25 / 10)%R with 2.5%R by lra.
  replace (49 / 10)%R with 4.9%R by lra.
  replace (142 / 100)%R with 1.42%R by lra.
  reflexivity.
Qed.

(** In exact arithmetic the estimated dispense height
    (-2.5 + sqrt(2.5^2 + 4.9 + 1.42 V)) + 1 does not decrease when the volume
    grows: for 0 <= V1 <= V2 the height at V1 is at most the height at V2.
    Nothing is said here of the binary64 evaluation, which goes through the
    C library's [pow]. *)
Theorem dispense_height_monotone (V1 V2 : R) :
  (0 <= V1)%R -> (V1 <= V2)%R ->
  (@dispense_height Exact V1 <= @dispense_height Exact V2)%R.
Proof.
  intros _ Hle. rewrite !dispense_height_exact.
  apply Rplus_le_compat_r, Rplus_le_compat_l, sqrt_le_1_alt. lra.
Qed.

Lemma dispense_height_monotone_witness :
  (0 <= 19)%R /\ (19 <= 190)%R /\
  (@dispense_height Exact 19 <= @dispense_height Exact 190)%R.
Proof.
  split; [lra|]. split; [lra|].
  apply (dispense_height_monotone 19 190); lra.
Defined.

Lemma sqrt_between (x lo hi : R) :
  (0 <= lo)%R -> (0 <= hi)%R -> (lo * lo < x)%R -> (x < hi * hi)%R ->
  (lo < R_sqrt.sqrt x < hi)%R.
Proof.
  intros Hlo Hhi Hl Hh. split.
  - rewrite <- (sqrt_square lo) by assumption.
    apply sqrt_lt_1_alt. split; [|assumption]. nra.
  - rewrite <- (sqrt_square hi) by assumption.
    apply sqrt_lt_1_alt. split; [|assumption]. nra.
Qed.

(** C7: at zero volume the estimate is the formula's own value,
    (-2.5 + sqrt(2.5^2 + 4.9)) + 1, which lies between 1.8391 and 1.8392 mm
    (about 1.84 mm): 1 mm above an estimated level of about 0.84 mm.  The
    binary64 evaluation is the same expression and lies in the same
    interval. *)
Theorem dispense_height_zero :
  @dispense_height Exact (of_int 0) = (-2.5 + R_sqrt.sqrt (2.5 * 2.5 + 4.9) + 1)%R
  /\ (1.8391 < @dispense_height Exact (of_int 0) < 1.8392)%R
  /\ @dispense_height Binary64 (of_int 0)
     = @nadd Binary64
         (@nadd Binary64 (frac (-25) 10)
            (root (@nadd Binary64 (sq (frac 25 10)) (frac 49 10))))
         (of_int 1)
  /\ PrimFloat.ltb (@frac Binary64 18391 10000)
       (@dispense_height Binary64 (of_int 0)) = true
  /\ PrimFloat.ltb (@dispense_height Binary64 (of_int 0))
       (@frac Binary64 18392 10000) = true.
Proof.
  assert (E : @dispense_height Exact (of_int 0)
              = (-2.5 + R_sqrt.sqrt (2.5 * 2.5 + 4.9) + 1)%R).
  { rewrite dispense_height_exact. simpl. do 3 f_equal. lra. }
  split; [exact E|]. split.
  - rewrite E.
    destruct (sqrt_between (2.5 * 2.5 + 4.9) 3.3391 3.3392) as [Hl Hh];
      try lra.
  - repeat split; vm_compute; reflexivity.
Qed.

(** ** [stepwise_dispense] *)

(** C6: under a runtime that carries out every command, and for a step
    count S >= 1, [stepwise_dispense] returns after issuing exactly S
    dispenses, each of volume V/S into the destination well, the i-th
    (i = 1..S) at height (-2.5 + sqrt(2.5^2 + 4.9 + 1.42 (i (V/S)))) + 1
    above the well bottom. *)
Theorem stepwise_dispense_steps `{Arith}
    (driver : list command -> command -> bool)
    (pipette : pipette) (V : num) (w : well) (S : Z) (s : robot) :
  accepting driver -> 1 <= S ->
  stepwise_dispense driver pipette V w S s
  = (Returns tt,
     emit s
       (map (fun i =>
               dispense pipette (V / of_int S)%num
                 (bottom w
                    ((frac (-25) 10
                      + root ((sq (frac 25 10) + frac 49 10)
                              + frac 142 100 * (of_int i * (V / of_int S))))
                     + of_int 1)%num)
                 None)
            (range 1 (S + 1))))
  /\ List.length (range 1 (S + 1)) = Z.to_nat S.
Proof.
  intros Hacc HS. split.
  - apply (emits_stepwise_dispense driver Hacc). lia.
  - rewrite range_length. f_equal. lia.
Qed.

Lemma stepwise_dispense_steps_witness :
  accepting (@obliging Binary64) /\ 1 <= 10 /\
  (@stepwise_dispense Binary64 obliging p300 (of_int 190)
    (Well sample_plate "A1") 10 init)
  = (Returns tt,
     emit init
       (map (fun i =>
               dispense p300 (of_int 190 / of_int 10)%num
                 (bottom (Well sample_plate "A1")
                    ((frac (-25) 10
                      + root ((sq (frac 25 10) + frac 49 10)
                              + frac 142 100
                                * (of_int i * (of_int 190 / of_int 10))))
                     + of_int 1)%num)
                 None)
            (range 1 (10 + 1))))
  /\ List.length (range 1 (10 + 1)) = Z.to_nat 10.
Proof.
  split; [apply obliging_accepts|]. split; [lia|].
  apply (@stepwise_dispense_steps Binary64 obliging p300 (of_int 190)
           (Well sample_plate "A1") 10 init);
    [apply obliging_accepts | lia].
Defined.

Lemma dispensed_steps `{Arith} (p : pipette) (v : num)
    (l : Z -> location) (xs : list Z) :
  dispensed (map (fun i => dispense p v (l i) None) xs)
  = repeat v (List.length xs).
Proof. induction xs as [|x xs IH]; simpl; congruence. Qed.

Lemma fold_Rplus_repeat (q : R) (n : nat) (acc : R) :
  fold_left Rplus (repeat q n) acc = (acc + INR n * q)%R.
Proof.
  revert acc. induction n as [|n IH]; intros acc.
  - simpl. lra.
  - change (repeat q (S n)) with (q :: repeat q n).
    cbn [fold_left]. rewrite IH, S_INR. lra.
Qed.

Lemma total_repeat_exact (q : R) (n : nat) :
  @total Exact (repeat q n) = (INR n * q)%R.
Proof.
  unfold total. simpl. rewrite fold_Rplus_repeat. lra.
Qed.

(** C5, as the code has it: in exact arithmetic, for every V and S >= 1
    the S steps of V/S issued by [stepwise_dispense] sum to V; in binary64
    the protocol's own call (190 ul in 10 steps) dispenses ten steps of 19 ul
    whose sum is 190 exactly. *)
Theorem stepwise_dispense_total
    (driver : list command -> command -> bool)
    (pipette : pipette) (V : R) (w : well) (S : Z) (s : robot) :
  @accepting Exact driver -> 1 <= S ->
  (exists cs,
     @stepwise_dispense Exact driver pipette V w S s = (Returns tt, emit s cs)
     /\ dispensed cs = repeat (V / IZR S)%R (Z.to_nat S)
     /\ @total Exact (dispensed cs) = V)
  /\ (let cs := trace (snd (@stepwise_dispense Binary64 obliging p300
                              (of_int 190) (Well sample_plate "A1") 10 init))
      in dispensed cs = repeat (float_of_int 19) 10
         /\ @total Binary64 (dispensed cs) = float_of_int 190
         /\ exact_sum (dispensed cs) = Some 190%Q).
Proof.
  intros Hacc HS. split.
  - eexists. split.
    + apply (emits_stepwise_dispense driver Hacc). lia.
    + rewrite dispensed_steps, range_length.
      replace (S + 1 - 1) with S by lia.
      split; [reflexivity|].
      rewrite total_repeat_exact, INR_IZR_INZ, Z2Nat.id by lia.
      simpl. field. apply not_0_IZR. lia.
  - vm_compute. repeat split.
Qed.

Lemma stepwise_dispense_total_witness :
  @accepting Exact obliging /\ 1 <= 10 /\
  (exists cs,
     @stepwise_dispense Exact obliging p300 190%R (Well sample_plate "A1") 10
       init = (Returns tt, emit init cs)
     /\ dispensed cs = repeat (190 / IZR 10)%R (Z.to_nat 10)
     /\ @total Exact (dispensed cs) = 190%R)
  /\ (let cs := trace (snd (@stepwise_dispense Binary64 obliging p300
                              (of_int 190) (Well sample_plate "A1") 10 init))
      in dispensed cs = repeat (float_of_int 19) 10
         /\ @total Binary64 (dispensed cs) = float_of_int 190
         /\ exact_sum (dispensed cs) = Some 190%Q).
Proof.
  split; [apply obliging_accepts|]. split; [lia|].
  apply (stepwise_dispense_total obliging p300 190%R
           (Well sample_plate "A1") 10 init);
    [apply obliging_accepts | lia].
Defined.

(** C5, as stated, fails in the code's arithmetic: 1 ul in 10 steps gives
    ten steps of the double nearest to 0.1; added up in binary64 they make
    0.99999999999999989, and their exact sum is not 1 either. *)
Lemma stepwise_dispense_total_rounds :
  let cs := trace (snd (@stepwise_dispense Binary64 obliging p300
                          (of_int 1) (Well sample_plate "A1") 10 init)) in
  List.length (dispensed cs) = 10%nat
  /\ @total Binary64 (dispensed cs) <> float_of_int 1
  /\ exact_sum (dispensed cs) <> Some 1%Q.
Proof.
  cbv zeta. split; [vm_compute; reflexivity|]. split.
  - intros E.
    apply (f_equal (fun x => PrimFloat.eqb x (float_of_int 1))) in E.
    vm_compute in E. discriminate E.
  - vm_compute. intros E. discriminate E.
Qed.

(** ** [custom_mix] *)

Section Mixing.

Context {Ar : Arith}.
Variable driver : list command -> command -> bool.

Lemma keeps_ret {T} (v : T) : keeps (ret v).
Proof. intros s. simpl. auto. Qed.

Lemma keeps_issue c : keeps (issue driver c).
Proof.
  intros s. unfold issue. destruct (driver (trace s) c); simpl.
  - split; [|exact I]. now destruct q.
  - split; [reflexivity | eauto].
Qed.

Lemma keeps_bind {T U} (m : M T) (k : T -> M U) :
  keeps m -> (forall v, keeps (k v)) -> keeps (bind m k).
Proof.
  intros Hm Hk s. unfold bind.
  destruct (Hm s) as [Hc Ho]. destruct (m s) as [[v|e] s1]; simpl in *.
  - destruct (Hk v s1) as [Hc' Ho']. split; [|exact Ho'].
    intros q. now rewrite Hc', Hc.
  - auto.
Qed.

Lemma keeps_for_each l body :
  (forall x, keeps (body x)) -> keeps (for_each l body).
Proof.
  intros Hb. induction l as [|x l IH]; simpl.
  - apply keeps_ret.
  - apply keeps_bind; auto.
Qed.

Lemma keeps_aspirate p v loc r : keeps (do_aspirate driver p v loc r).
Proof. intros s. unfold do_aspirate. apply keeps_issue. Qed.

Lemma keeps_dispense p v loc r : keeps (do_dispense driver p v loc r).
Proof. intros s. unfold do_dispense. apply keeps_issue. Qed.

Lemma keeps_mix_loop p volume w rate l :
  keeps (for_each l (fun _ =>
           call_aspirate driver (PipetteObj p) volume (WellObj w) rate ;;
           call_dispense driver (PipetteObj p) volume (WellObj w) rate)).
Proof.
  apply keeps_for_each. intros _. apply keeps_bind.
  - apply keeps_aspirate.
  - intros _. apply keeps_dispense.
Qed.

End Mixing.

Lemma bind_run `{Arith} {T U} (m : M T) (k : T -> M U) (s : robot) :
  bind m k s = match m s with
               | (Returns v, s') => k v s'
               | (Raises e, s') => (Raises e, s')
               end.
Proof. reflexivity. Qed.

Lemma bind_returns `{Arith} {T U} (m : M T) (k : T -> M U) s v s' :
  m s = (Returns v, s') -> bind m k s = k v s'.
Proof. intros E. unfold bind. now rewrite E. Qed.

Lemma bind_raises `{Arith} {T U} (m : M T) (k : T -> M U) s e s' :
  m s = (Raises e, s') -> bind m k s = (Raises e, s').
Proof. intros E. unfold bind. now rewrite E. Qed.

(** C2, as the code has it: whatever the runtime does, a call of
    [custom_mix] on a pipette and a well either returns, and then the
    pipette's aspirate and dispense clearances are the default 1 mm, or
    raises the fault of an aspirate or dispense the runtime refused, and
    then the clearances are still [bottom_aspirate] and [bottom_dispense]. *)
Theorem custom_mix_clearance `{Arith}
    (driver : list command -> command -> bool)
    (p : pipette) (repetitions : Z) (volume : num) (w : well)
    (bottom_aspirate bottom_dispense : num) (s : robot) :
  let res := custom_mix driver (PipetteObj p) repetitions volume (WellObj w)
               bottom_aspirate bottom_dispense s in
  match fst res with
  | Returns _ => well_bottom_clearance (snd res) p = default_clearance
  | Raises e =>
      well_bottom_clearance (snd res) p
      = Clearance bottom_aspirate bottom_dispense
      /\ exists c, e = DriverError c
  end.
Proof.
  cbv zeta. unfold custom_mix.
  rewrite bind_run. cbn [assign_clearance_aspirate]. cbv beta iota.
  rewrite bind_run. cbn [assign_clearance_dispense]. cbv beta iota.
  rewrite bind_run.
  match goal with |- context [for_each ?l ?b ?s1] =>
    destruct (keeps_mix_loop driver p volume w (of_int 1) l s1) as [Hc Ho];
    destruct (for_each l b s1) as [[[]|e] s2] end; cbn [fst snd] in Hc, Ho.
  - rewrite bind_run. cbv beta iota. cbn [fst snd].
    destruct p; reflexivity.
  - cbn [fst snd]. split; [|exact Ho]. rewrite Hc. destruct p; reflexivity.
Qed.

(** C2, as stated, fails: when the runtime faults on the first aspirate of
    [custom_mix(p300, 1, 15, A1, 3, 6)], the call raises and leaves the
    clearances at 3 mm and 6 mm. *)
Lemma custom_mix_clearance_left :
  let res := @custom_mix Binary64 jammed (PipetteObj p300) 1 (of_int 15)
               (WellObj (Well sample_plate "A1")) (of_int 3) (of_int 6) init in
  (exists e, fst res = Raises e)
  /\ well_bottom_clearance (snd res) p300 = Clearance (of_int 3) (of_int 6)
  /\ well_bottom_clearance (snd res) p300 <> default_clearance.
Proof.
  cbv zeta. split; [eexists; vm_compute; reflexivity|].
  split; [vm_compute; reflexivity|].
  intros E. vm_compute in E.
  apply (f_equal (fun c => PrimFloat.eqb (@clr_aspirate Binary64 c) 1)) in E.
  vm_compute in E. discriminate E.
Qed.

(** ** Reading the traces of the loops *)

Lemma flat_map_flat_map {X Y W} (f : X -> list Y) (g : Y -> list W) l :
  flat_map g (flat_map f l) = flat_map (fun x => flat_map g (f x)) l.
Proof.
  induction l as [|x l IH]; simpl; [reflexivity|].
  now rewrite flat_map_app, IH.
Qed.

Lemma map_const_repeat {X Y} (y : Y) (l : list X) :
  map (fun _ => y) l = repeat y (List.length l).
Proof. induction l as [|x l IH]; simpl; congruence. Qed.

Lemma columns_length columns :
  List.length (range 1 (columns + 1)) = Z.to_nat columns.
Proof. rewrite range_length. f_equal. lia. Qed.

Section Readers.

Context {Ar : Arith}.

Lemma dispenses_into_steps plate p v w (h : Z -> num) l :
  labware_eqb (well_plate w) plate = false ->
  dispenses_into plate (map (fun n => dispense p v (bottom w (h n)) None) l)
  = [].
Proof.
  intros Hw. induction l as [|x l IH]; simpl; [reflexivity|].
  now rewrite Hw.
Qed.

Lemma aspirates_from_steps plate p v (loc : Z -> location) l :
  aspirates_from plate (map (fun n => dispense p v (loc n) None) l) = [].
Proof. induction l as [|x l IH]; simpl; auto. Qed.

Lemma tip_fates_steps p v (loc : Z -> location) l :
  tip_fates (map (fun n => dispense p v (loc n) None) l) = [].
Proof. induction l as [|x l IH]; simpl; auto. Qed.

Lemma dispenses_into_app plate a b :
  dispenses_into plate (a ++ b)
  = dispenses_into plate a ++ dispenses_into plate b.
Proof. apply flat_map_app. Qed.

Lemma aspirates_from_app plate a b :
  aspirates_from plate (a ++ b)
  = aspirates_from plate a ++ aspirates_from plate b.
Proof. apply flat_map_app. Qed.

Lemma tip_fates_app a b : tip_fates (a ++ b) = tip_fates a ++ tip_fates b.
Proof. apply flat_map_app. Qed.

Lemma dispenses_into_flat_map plate {X} (f : X -> list command) l :
  dispenses_into plate (flat_map f l)
  = flat_map (fun x => dispenses_into plate (f x)) l.
Proof. apply flat_map_flat_map. Qed.

Lemma aspirates_from_flat_map plate {X} (f : X -> list command) l :
  aspirates_from plate (flat_map f l)
  = flat_map (fun x => aspirates_from plate (f x)) l.
Proof. apply flat_map_flat_map. Qed.

Lemma tip_fates_flat_map {X} (f : X -> list command) l :
  tip_fates (flat_map f l) = flat_map (fun x => tip_fates (f x)) l.
Proof. apply flat_map_flat_map. Qed.

Lemma dispenses_into_trash_addition i :
  dispenses_into resevoir_trash (addition i) = [].
Proof.
  unfold addition. rewrite !dispenses_into_app.
  rewrite (dispenses_into_steps resevoir_trash p300 _
             (Well sample_plate (A i))
             (fun n => dispense_height
                         (of_int n * (of_int 190 / of_int 10))%num))
    by reflexivity.
  reflexivity.
Qed.

Lemma aspirates_from_samples_addition i :
  aspirates_from sample_plate (addition i) = [].
Proof.
  unfold addition. rewrite !aspirates_from_app.
  rewrite (aspirates_from_steps sample_plate p300 _
             (fun n => bottom (Well sample_plate (A i))
                         (dispense_height
                            (of_int n * (of_int 190 / of_int 10))%num))).
  reflexivity.
Qed.

Lemma tip_fates_addition i : tip_fates (addition i) = [return_tip p300].
Proof.
  unfold addition. rewrite !tip_fates_app.
  rewrite (tip_fates_steps p300 _
             (fun n => bottom (Well sample_plate (A i))
                         (dispense_height
                            (of_int n * (of_int 190 / of_int 10))%num))).
  reflexivity.
Qed.

Lemma dispenses_into_trash_removal j cleanings i k :
  dispenses_into resevoir_trash (removal j cleanings i k)
  = [(of_int 220, bottom (Well resevoir_trash (A i)) (of_int 3))].
Proof.
  unfold removal, tip_fate, dispenses_into. rewrite flat_map_app.
  destruct (j <? cleanings); [reflexivity|].
  destruct (j =? cleanings); reflexivity.
Qed.

Lemma aspirates_from_samples_removal j cleanings i k :
  aspirates_from sample_plate (removal j cleanings i k)
  = let center_location := bottom (Well sample_plate (A k)) (frac 3 10) in
    [(of_int 150, move center_location (of_int 0) (of_int 0) (frac 12 10));
     (of_int 30, center_location);
     (of_int 20, move center_location (frac 3 10) (frac 3 10) (frac 1 10));
     (of_int 20,
      move center_location (frac (-3) 10) (frac (-3) 10) (frac 1 10))].
Proof.
  unfold removal, tip_fate, aspirates_from. rewrite flat_map_app.
  destruct (j <? cleanings); [reflexivity|].
  destruct (j =? cleanings); reflexivity.
Qed.

Lemma tip_fates_removal j cleanings i k :
  tip_fates (removal j cleanings i k) = tip_fate j cleanings.
Proof.
  unfold removal, tip_fate, tip_fates. rewrite flat_map_app.
  destruct (j <? cleanings); [reflexivity|].
  destruct (j =? cleanings); reflexivity.
Qed.

(** The tips of one cleaning cycle: every column's tip goes back to the rack
    after the ethanol is added, and meets its [tip_fate] after the ethanol
    is removed. *)
Lemma tip_fates_cycle columns cleanings j :
  tip_fates (cycle columns cleanings j)
  = repeat (return_tip p300) (Z.to_nat columns)
    ++ flat_map (fun _ => tip_fate j cleanings) (range 1 (columns + 1)).
Proof.
  unfold cycle. rewrite !tip_fates_app, !tip_fates_flat_map.
  rewrite (flat_map_ext _ _ tip_fates_addition).
  rewrite (flat_map_ext _ _ (tip_fates_removal j cleanings columns)).
  rewrite flat_map_singleton, map_const_repeat, columns_length.
  destruct (columns <? 4); reflexivity.
Qed.

End Readers.

(** ** The cleaning cycles *)

(** C4: in every cleaning cycle, under a runtime that carries out every
    command, each of the [columns] passes of the ethanol-removal loop
    dispenses its 220 ul at 3 mm into the one trash well 'A' + str(columns)
    (the variable [i] as the add-ethanol loop left it), while the four
    aspirations of pass k are taken from the sample well 'A' + str(k). *)
Theorem trash_well_is_last_column `{Arith}
    (driver : list command -> command -> bool)
    (columns cleanings : Z) (i : option Z) (j : Z) (s : robot) :
  accepting driver ->
  exists cs,
    clean driver columns cleanings i j s = (Returns tt, emit s cs)
    /\ dispenses_into resevoir_trash cs
       = repeat (of_int 220, bottom (Well resevoir_trash (A columns)) (of_int 3))
           (Z.to_nat columns)
    /\ aspirates_from sample_plate cs
       = flat_map (fun k =>
           let center_location :=
             bottom (Well sample_plate (A k)) (frac 3 10) in
           [(of_int 150,
             move center_location (of_int 0) (of_int 0) (frac 12 10));
            (of_int 30, center_location);
            (of_int 20,
             move center_location (frac 3 10) (frac 3 10) (frac 1 10));
            (of_int 20,
             move center_location (frac (-3) 10) (frac (-3) 10) (frac 1 10))])
           (range 1 (columns + 1)).
Proof.
  intros Hacc. exists (cycle columns cleanings j).
  split; [apply (emits_clean driver Hacc)|]. split.
  - unfold cycle. rewrite !dispenses_into_app, !dispenses_into_flat_map.
    rewrite (flat_map_ext _ (fun _ => []) dispenses_into_trash_addition).
    rewrite flat_map_nil.
    rewrite (flat_map_ext _ _ (dispenses_into_trash_removal j cleanings columns)).
    rewrite flat_map_singleton, map_const_repeat, columns_length.
    destruct (columns <? 4); reflexivity.
  - unfold cycle. rewrite !aspirates_from_app, !aspirates_from_flat_map.
    rewrite (flat_map_ext _ (fun _ => []) aspirates_from_samples_addition).
    rewrite flat_map_nil.
    rewrite (flat_map_ext _ _ (aspirates_from_samples_removal j cleanings columns)).
    destruct (columns <? 4); reflexivity.
Qed.

Lemma trash_well_is_last_column_witness :
  accepting (@obliging Binary64) /\
  exists cs,
    @clean Binary64 obliging 3 1 None 1 init = (Returns tt, emit init cs)
    /\ dispenses_into resevoir_trash cs
       = repeat (of_int 220, bottom (Well resevoir_trash (A 3)) (of_int 3))
           (Z.to_nat 3)
    /\ aspirates_from sample_plate cs
       = flat_map (fun k =>
           let center_location :=
             bottom (Well sample_plate (A k)) (frac 3 10) in
           [(of_int 150,
             move center_location (of_int 0) (of_int 0) (frac 12 10));
            (of_int 30, center_location);
            (of_int 20,
             move center_location (frac 3 10) (frac 3 10) (frac 1 10));
            (of_int 20,
             move center_location (frac (-3) 10) (frac (-3) 10) (frac 1 10))])
           (range 1 (3 + 1)).
Proof.
  split; [apply obliging_accepts|].
  apply (@trash_well_is_last_column Binary64 obliging 3 1 None 1 init).
  apply obliging_accepts.
Defined.


(** ** The door monitor *)

Module MonitorFacts.
Import Monitor.

Lemma check_once_stable (o : observation) (paused closed : bool) :
  door o closed ->
  check_once o paused
  = (if closed then false else true,
     (if negb paused && negb closed then [pause] else [])
     ++ (if paused && closed then [resume] else [])
     ++ (if negb closed then [print notice] else [])
     ++ [sleep 1]).
Proof.
  intros (H1 & H2 & H3). unfold check_once. rewrite H1, H2, H3.
  destruct paused, closed; reflexivity.
Qed.

(** C8: one pass of the monitor, during which the door reads the same
    throughout, ends with one sleep of a second and
    - not paused, door open: calls pause once and sets [paused];
    - paused, door closed: calls resume once and clears [paused];
    - paused, door open: only prints the notice, [paused] stays set;
    - not paused, door closed: does nothing. *)
Theorem check_once_transitions (o : observation) (paused closed : bool) :
  door o closed ->
  check_once o paused
  = match paused, closed with
    | false, false =>
        (true,
         [pause;
          print "Protocol paused. Close the door to the robot to resume.";
          sleep 1])
    | true, true => (false, [resume; sleep 1])
    | true, false =>
        (true,
         [print "Protocol paused. Close the door to the robot to resume.";
          sleep 1])
    | false, true => (false, [sleep 1])
    end.
Proof.
  intros (H1 & H2 & H3). unfold check_once. rewrite H1, H2, H3.
  destruct paused, closed; reflexivity.
Qed.

Lemma check_once_transitions_witness :
  door (Observation false false false false true) false
  /\ check_once (Observation false false false false true) false
     = (true,
        [pause;
         print "Protocol paused. Close the door to the robot to resume.";
         sleep 1]).
Proof.
  split; [repeat split|].
  apply (check_once_transitions (Observation false false false false true)
           false false).
  repeat split.
Defined.

(** While the door stays open, a monitor that starts unpaused pauses the
    run once, however many passes it makes. *)
Lemma check_pause_pauses_once (world : list observation) :
  world <> [] ->
  Forall (fun o => door o false) world ->
  fst (check_pause world false) = true
  /\ List.length (filter is_pause (snd (check_pause world false))) = 1%nat
  /\ filter is_resume (snd (check_pause world false)) = [].
Proof.
  assert (Hp : forall w, Forall (fun o => door o false) w ->
            fst (check_pause w true) = true
            /\ filter is_pause (snd (check_pause w true)) = []
            /\ filter is_resume (snd (check_pause w true)) = []).
  { induction w as [|o w IH]; intros Hw; [simpl; auto|].
    inversion Hw as [|? ? Ho Hw']; subst.
    cbn [check_pause]. rewrite (check_once_stable o true false Ho).
    destruct (negb (done_120 o) && negb (negb (main_alive o))).
    - destruct (IH Hw') as (Hf & Hps & Hrs).
      destruct (check_pause w true) as [p es]. simpl in *.
      subst p. auto.
    - simpl. auto. }
  destruct world as [|o w]; [congruence|]. intros _ Hw.
  inversion Hw as [|? ? Ho Hw']; subst.
  cbn [check_pause]. rewrite (check_once_stable o false false Ho).
  destruct (negb (done_120 o) && negb (negb (main_alive o))).
  - destruct (Hp w Hw') as (Hf & Hps & Hrs).
    destruct (check_pause w true) as [p es]. simpl in *.
    subst p. rewrite Hps, Hrs. auto.
  - simpl. auto.
Qed.

End MonitorFacts.

(** ** Adding the beads *)

Section Beads.

Context {Ar : Arith}.
Variable driver : list command -> command -> bool.
Hypothesis driver_accepts : accepting driver.

Lemma set_clearance_emit p c s cs :
  set_clearance p c (emit s cs) = emit (set_clearance p c s) cs.
Proof. destruct p; reflexivity. Qed.

Lemma set_clearance_twice p c c' s :
  set_clearance p c (set_clearance p c' s) = set_clearance p c s.
Proof. destruct p; reflexivity. Qed.

Lemma clearance_emit s cs p :
  well_bottom_clearance (emit s cs) p = well_bottom_clearance s p.
Proof. destruct p; reflexivity. Qed.

Lemma mix_loop p volume w bottom_aspirate bottom_dispense l : forall s,
  well_bottom_clearance s p = Clearance bottom_aspirate bottom_dispense ->
  for_each l (fun _ =>
    call_aspirate driver (PipetteObj p) volume (WellObj w) (of_int 1) ;;
    call_dispense driver (PipetteObj p) volume (WellObj w) (of_int 1)) s
  = (Returns tt,
     emit s (flat_map (fun _ =>
               mixing p volume w bottom_aspirate bottom_dispense) l)).
Proof.
  induction l as [|x l IH]; intros s Hs.
  - simpl. unfold ret. now rewrite emit_nil.
  - cbn [for_each flat_map].
    erewrite bind_returns; cycle 1.
    { erewrite bind_returns; cycle 1.
      - unfold call_aspirate, do_aspirate. rewrite Hs.
        apply (emits_issue driver driver_accepts).
      - unfold call_dispense, do_dispense. rewrite clearance_emit, Hs.
        apply (emits_issue driver driver_accepts). }
    rewrite IH by now rewrite !clearance_emit.
    now rewrite !emit_app.
Qed.

(** [custom_mix] on a pipette and a well: the mixing at the two heights,
    and the default clearance back. *)
Lemma custom_mix_mixes p repetitions volume w bottom_aspirate bottom_dispense s :
  custom_mix driver (PipetteObj p) repetitions volume (WellObj w)
    bottom_aspirate bottom_dispense s
  = (Returns tt,
     emit (set_clearance p default_clearance s)
       (flat_map (fun _ =>
          mixing p volume w bottom_aspirate bottom_dispense)
          (range 0 repetitions))).
Proof.
  unfold custom_mix.
  erewrite bind_returns by reflexivity.
  erewrite bind_returns by reflexivity.
  erewrite bind_returns; cycle 1.
  { apply (mix_loop p volume w bottom_aspirate bottom_dispense).
    destruct p; reflexivity. }
  erewrite bind_returns by reflexivity.
  cbn [assign_clearance_dispense]. f_equal.
  destruct p; reflexivity.
Qed.

Lemma resets_custom_mix repetitions volume w bottom_aspirate bottom_dispense :
  resets (custom_mix driver (PipetteObj p300) repetitions volume (WellObj w)
            bottom_aspirate bottom_dispense)
    (flat_map (fun _ => mixing p300 volume w bottom_aspirate bottom_dispense)
       (range 0 repetitions)).
Proof. intros s. apply custom_mix_mixes. Qed.

Lemma emits_resets m k a b :
  emits m a -> resets k b -> resets (m ;; k) (a ++ b).
Proof.
  intros Hm Hk s. unfold bind. rewrite Hm, Hk.
  now rewrite set_clearance_emit, emit_app.
Qed.

Lemma resets_emits m k a b :
  resets m a -> emits k b -> resets (m ;; k) (a ++ b).
Proof.
  intros Hm Hk s. unfold bind. rewrite Hm, Hk. now rewrite emit_app.
Qed.

Lemma resets_resets m k a b :
  resets m a -> resets k b -> resets (m ;; k) (a ++ b).
Proof.
  intros Hm Hk s. unfold bind. rewrite Hm, Hk.
  now rewrite set_clearance_emit, set_clearance_twice, emit_app.
Qed.

Lemma resets_for_each l body f x :
  (forall y, resets (body y) (f y)) ->
  resets (for_each (x :: l) body) (flat_map f (x :: l)).
Proof.
  intros Hb. revert x. induction l as [|y l IH]; intros x.
  - cbn [for_each flat_map]. apply resets_emits; [apply Hb | apply emits_ret].
  - change (for_each (x :: y :: l) body)
      with (body x ;; for_each (y :: l) body).
    change (flat_map f (x :: y :: l)) with (f x ++ flat_map f (y :: l)).
    apply resets_resets; [apply Hb | apply IH].
Qed.

(** With a number of columns other than 1 and 6 the pre-mix is not reached:
    every column gets its beads, [volBeads] ul into the sample well, and is
    mixed. *)
Lemma add_beads_without_premix columns vol_samples volBeads :
  1 <= columns -> columns <> 1 -> columns <> 6 ->
  resets (add_beads driver columns vol_samples volBeads)
    (flat_map (binding vol_samples volBeads) (range 1 (columns + 1))).
Proof.
  intros Hc H1 H6. unfold add_beads.
  replace ((columns =? 1) || (columns =? 6)) with false
    by (symmetry; apply orb_false_iff; split; apply Z.eqb_neq; assumption).
  assert (Hr : exists l, range 1 (columns + 1) = 1 :: l).
  { unfold range. replace (Z.to_nat (columns + 1 - 1))
      with (S (Z.to_nat (columns - 1))) by lia.
    eexists. reflexivity. }
  destruct Hr as [l ->].
  apply resets_for_each. intros i. unfold binding.
  apply (emits_resets _ _ [_] _); [apply (emits_issue driver driver_accepts)|].
  apply (emits_resets _ _ [] _); [apply emits_ret|].
  apply (emits_resets _ _ [_; _] _); [apply (emits_flow driver driver_accepts)|].
  apply (emits_resets _ _ [_] _);
    [apply (emits_aspirate driver driver_accepts)|].
  apply (emits_resets _ _ [_] _);
    [apply (emits_dispense driver driver_accepts)|].
  apply (emits_resets _ _ [_] _);
    [apply (emits_dispense driver driver_accepts)|].
  apply (emits_resets _ _ [_] _); [apply (emits_issue driver driver_accepts)|].
  apply (emits_resets _ _ [_; _] _); [apply (emits_flow driver driver_accepts)|].
  apply resets_emits; [apply resets_custom_mix|].
  apply (emits_issue driver driver_accepts).
Qed.

End Beads.

(** ** The run with one column *)

(** The pre-mix of line 161 is reached when, and only when, there are 1 or
    6 columns; reached, it raises on its first statement, which asks a well
    for [well_bottom_clearance]. *)
Lemma add_beads_premix_raises `{Arith}
    (driver : list command -> command -> bool)
    (columns : Z) (vol_samples volBeads : num) (s : robot) :
  accepting driver -> columns = 1 \/ columns = 6 ->
  add_beads driver columns vol_samples volBeads s
  = (Raises (AttributeError "well_bottom_clearance"),
     emit s [pick_up_tip p300 None;
             set_flow_rate p300 Aspirate (of_int 9);
             set_flow_rate p300 Dispense (of_int 9)]).
Proof.
  intros Hacc Hc. unfold add_beads.
  assert (Hr : exists l, range 1 (columns + 1) = 1 :: l)
    by (destruct Hc; subst; eexists; reflexivity).
  destruct Hr as [l ->].
  assert (Hb : (columns =? 1) || (columns =? 6) = true)
    by (destruct Hc; subst; reflexivity).
  rewrite Hb. cbn [for_each].
  apply bind_raises. cbv beta.
  erewrite bind_returns by apply (emits_issue driver Hacc).
  apply bind_raises.
  erewrite bind_returns by apply (emits_flow driver Hacc).
  unfold custom_mix. apply bind_raises.
  cbn [assign_clearance_aspirate]. unfold raise. now rewrite emit_app.
Qed.

(** C1, at sample_count = 8, sample_volume = 20, bead_ratio = 0.8: there is
    one column and volBeads is 16, but the run raises in the pre-mix, before
    any liquid is moved: line 161 passes the well where [custom_mix] takes
    its pipette and the pipette where it takes its well. *)
Theorem run_one_column_raises :
  let u := @Parameters Binary64 8 (of_int 20) (frac 8 10) 1 (of_int 15) in
  ceil_div8 (no_samples u) = 1
  /\ @nmul Binary64 (vol_samples u) (ratio u) = float_of_int 16
  /\ @run Binary64 obliging u init
     = (Raises (AttributeError "well_bottom_clearance"),
        emit init [set_rail_lights true;
                   disengage;
                   pick_up_tip p300 None;
                   set_flow_rate p300 Aspirate (of_int 9);
                   set_flow_rate p300 Dispense (of_int 9)])
  /\ dispensed (trace (snd (@run Binary64 obliging u init))) = [].
Proof.
  cbv zeta. repeat split; vm_compute; reflexivity.
Qed.

(** ** The run with the default input *)

(** [ceil_div8 n] is the least number of columns of 8 wells that hold [n]
    samples. *)
Lemma ceil_div8_spec (n : Z) : 8 * (ceil_div8 n - 1) < n <= 8 * ceil_div8 n.
Proof.
  unfold ceil_div8.
  pose proof (Z.div_mod (- n) 8 ltac:(lia)) as Hd.
  pose proof (Z.mod_pos_bound (- n) 8 ltac:(lia)) as Hm.
  lia.
Qed.

Lemma ceil_div8_examples :
  ceil_div8 20 = 3 /\ ceil_div8 96 = 12 /\ ceil_div8 1 = 1 /\ ceil_div8 8 = 1.
Proof. repeat split. Qed.

(** With the default input (20 samples, 3 columns) the run returns, having
    issued 432 commands, with the clearances back at the default and [done]
    set. *)
Lemma run_defaults_returns :
  let res := @run Binary64 obliging defaults init in
  fst res = Returns tt
  /\ List.length (trace (snd res)) = 432%nat
  /\ well_bottom_clearance (snd res) p300 = default_clearance
  /\ done (snd res) = true.
Proof. cbv zeta. repeat split; vm_compute; reflexivity. Qed.


(** * The run under any runtime *)

Section Following.

Context {Ar : Arith}.
Variable driver : list command -> command -> bool.

Lemma follows_ret : follows driver None (ret tt) [].
Proof.
  intros s. unfold follows_at, ret. split; [reflexivity|].
  now rewrite app_nil_r.
Qed.

Lemma follows_issue c : follows driver None (issue driver c) [c].
Proof.
  intros s. unfold follows_at, issue. destruct (driver (trace s) c) eqn:E.
  - split; reflexivity.
  - left. exists [], c, []. rewrite app_nil_r. auto.
Qed.

Lemma follows_seq fin m k a b :
  follows driver None m a -> follows driver fin k b ->
  follows driver fin (m ;; k) (a ++ b).
Proof.
  intros Hm Hk s. unfold follows_at, bind.
  specialize (Hm s). unfold follows_at in Hm.
  destruct (m s) as [[[]|e] s1].
  - destruct Hm as [_ Ht]. specialize (Hk s1). unfold follows_at in Hk.
    destruct (k s1) as [[[]|e] s2].
    + destruct Hk as [Hf Ht2]. split; [exact Hf|].
      now rewrite Ht2, Ht, app_assoc.
    + destruct Hk as [(pre & c & post & Hb & Ht2 & He & Hd) | [Hf Ht2]].
      * left. exists (a ++ pre), c, post. subst b.
        split; [now rewrite app_assoc|].
        split; [now rewrite Ht2, Ht, app_assoc|]. auto.
      * right. split; [exact Hf|]. now rewrite Ht2, Ht, app_assoc.
  - destruct Hm as [(pre & c & post & Ha & Ht & He & Hd) | [Hf _]];
      [|discriminate Hf].
    left. exists pre, c, (post ++ b). subst a.
    split; [now rewrite <- app_assoc|]. auto.
Qed.

(** A statement that never returns ends the sequence it is in. *)
Lemma follows_stop e m (k : unit -> M unit) a :
  follows driver (Some e) m a -> follows driver (Some e) (bind m k) a.
Proof.
  intros Hm s. unfold follows_at, bind.
  specialize (Hm s). unfold follows_at in Hm.
  destruct (m s) as [[[]|e'] s1].
  - destruct Hm as [Hf _]. discriminate Hf.
  - exact Hm.
Qed.

Lemma follows_for_each l body f :
  (forall x, In x l -> follows driver None (body x) (f x)) ->
  follows driver None (for_each l body) (flat_map f l).
Proof.
  induction l as [|x l IH]; intros Hb; simpl.
  - apply follows_ret.
  - apply follows_seq.
    + apply Hb. now left.
    + apply IH. intros y Hy. apply Hb. now right.
Qed.

Lemma follows_flow p a d :
  follows driver None (flow driver p a d)
    [set_flow_rate p Aspirate a; set_flow_rate p Dispense d].
Proof.
  unfold flow. apply (follows_seq _ _ _ [_] [_]); apply follows_issue.
Qed.

Lemma follows_aspirate p v l r :
  follows driver None (do_aspirate driver p v (AtLocation l) r)
    [aspirate p v l r].
Proof. intros s. unfold follows_at, do_aspirate. apply follows_issue. Qed.

Lemma follows_dispense p v l r :
  follows driver None (do_dispense driver p v (AtLocation l) r)
    [dispense p v l r].
Proof. intros s. unfold follows_at, do_dispense. apply follows_issue. Qed.

Lemma follows_set_done b :
  follows driver None (fun s => (Returns tt, set_done b s)) [].
Proof.
  intros s. unfold follows_at. split; [reflexivity|].
  simpl. now rewrite app_nil_r.
Qed.

Lemma follows_stepwise_dispense pipette volume w steps :
  steps <> 0 ->
  follows driver None (stepwise_dispense driver pipette volume w steps)
    (map (fun i =>
            dispense pipette (volume / of_int steps)%num
              (bottom w (dispense_height (of_int i * (volume / of_int steps))%num))
              None)
         (range 1 (steps + 1))).
Proof.
  intros Hs. unfold stepwise_dispense.
  destruct (Z.eqb_spec steps 0) as [->|_]; [contradiction|].
  change (range 1 (steps + 1)) with (range (0 + 1) (steps + 1)).
  rewrite range_shift, map_map, <- flat_map_singleton.
  apply follows_for_each. intros i _. apply follows_dispense.
Qed.

(** On a state where the clearances are the two heights, a pass of the
    mixing loop is the two commands of [mixing]. *)
Lemma mix_body_eq p volume w bottom_aspirate bottom_dispense s :
  well_bottom_clearance s p = Clearance bottom_aspirate bottom_dispense ->
  (call_aspirate driver (PipetteObj p) volume (WellObj w) (of_int 1) ;;
   call_dispense driver (PipetteObj p) volume (WellObj w) (of_int 1)) s
  = (issue driver
       (aspirate p volume (bottom w bottom_aspirate) (Some (of_int 1))) ;;
     issue driver
       (dispense p volume (bottom w bottom_dispense) (Some (of_int 1)))) s.
Proof.
  intros Hs. rewrite !bind_run.
  unfold call_aspirate, do_aspirate. rewrite Hs. cbn [clr_aspirate].
  destruct (keeps_issue driver
    (aspirate p volume (bottom w bottom_aspirate) (Some (of_int 1))) s)
    as [Hc _].
  destruct (issue driver _ s) as [[[]|e1] s1]; [|reflexivity].
  unfold call_dispense, do_dispense. cbn [snd] in Hc.
  now rewrite Hc, Hs.
Qed.

Lemma mix_loop_eq p volume w bottom_aspirate bottom_dispense l : forall s,
  well_bottom_clearance s p = Clearance bottom_aspirate bottom_dispense ->
  for_each l (fun _ =>
    call_aspirate driver (PipetteObj p) volume (WellObj w) (of_int 1) ;;
    call_dispense driver (PipetteObj p) volume (WellObj w) (of_int 1)) s
  = for_each l (fun _ =>
      issue driver
        (aspirate p volume (bottom w bottom_aspirate) (Some (of_int 1))) ;;
      issue driver
        (dispense p volume (bottom w bottom_dispense) (Some (of_int 1)))) s.
Proof.
  induction l as [|x l IH]; intros s Hs; [reflexivity|].
  cbn [for_each]. rewrite (bind_run (_ ;; _)).
  rewrite (mix_body_eq p volume w bottom_aspirate bottom_dispense s Hs).
  rewrite (bind_run (_ ;; _) (fun _ => for_each l _)).
  match goal with |- context [(?a ;; ?b) s] =>
    assert (Hk : keeps (a ;; b))
      by (apply keeps_bind; [|intros _]; apply keeps_issue);
    destruct (Hk s) as [Hc _];
    destruct ((a ;; b) s) as [[[]|e1] s1]
  end; [|reflexivity].
  apply IH. cbn [snd] in Hc. now rewrite Hc.
Qed.

(** [custom_mix] on a pipette and a well, under any runtime. *)
Lemma follows_custom_mix p repetitions volume w bottom_aspirate bottom_dispense :
  follows driver None
    (custom_mix driver (PipetteObj p) repetitions volume (WellObj w)
       bottom_aspirate bottom_dispense)
    (flat_map (fun _ => mixing p volume w bottom_aspirate bottom_dispense)
       (range 0 repetitions)).
Proof.
  intros s. unfold follows_at, custom_mix.
  erewrite bind_returns by reflexivity.
  erewrite bind_returns by reflexivity.
  rewrite bind_run.
  rewrite (mix_loop_eq p volume w bottom_aspirate bottom_dispense)
    by (destruct p; reflexivity).
  match goal with |- context [for_each ?l ?b ?s1] =>
    assert (Hf : follows driver None (for_each l b)
                   (flat_map (fun _ =>
                      mixing p volume w bottom_aspirate bottom_dispense) l))
      by (apply follows_for_each; intros _ _;
          apply (follows_seq _ _ _ [_] [_]); apply follows_issue);
    specialize (Hf s1); unfold follows_at in Hf;
    replace (trace s1) with (trace s) in Hf by (destruct p; reflexivity);
    destruct (for_each l b s1) as [[[]|e] s2]
  end.
  - destruct Hf as [_ Ht]. rewrite bind_run. cbv beta iota.
    split; [reflexivity|]. rewrite <- Ht. destruct p; reflexivity.
  - exact Hf.
Qed.

(** [custom_mix] on something that is not a pipette. *)
Lemma follows_custom_mix_well w repetitions volume o
    bottom_aspirate bottom_dispense :
  follows driver (Some (AttributeError "well_bottom_clearance"))
    (custom_mix driver (WellObj w) repetitions volume o
       bottom_aspirate bottom_dispense) [].
Proof.
  intros s. unfold follows_at, custom_mix.
  erewrite bind_raises by reflexivity.
  right. split; [reflexivity|]. now rewrite app_nil_r.
Qed.

End Following.

Section Running.

Context {Ar : Arith}.
Variable driver : list command -> command -> bool.

Ltac follows_step :=
  first [ apply follows_issue | apply follows_aspirate
        | apply follows_dispense | apply follows_flow | apply follows_ret
        | apply follows_custom_mix | apply follows_set_done ].

Ltac follows_one := apply (follows_seq driver _ _ _ [_] _); [follows_step|].
Ltac follows_two := apply (follows_seq driver _ _ _ [_; _] _); [follows_step|].

Lemma follows_add_beads columns vol_samples volBeads :
  premix columns = false ->
  follows driver None (add_beads driver columns vol_samples volBeads)
    (flat_map (binding vol_samples volBeads) (range 1 (columns + 1))).
Proof.
  intros Hp. unfold add_beads. fold (premix columns). rewrite Hp.
  apply follows_for_each. intros i _. unfold binding.
  follows_one.
  apply (follows_seq driver _ _ _ [] _); [follows_step|].
  follows_two. do 4 follows_one. follows_two.
  apply follows_seq; follows_step.
Qed.

Lemma follows_add_beads_premix columns vol_samples volBeads :
  premix columns = true ->
  follows driver (Some (AttributeError "well_bottom_clearance"))
    (add_beads driver columns vol_samples volBeads)
    [pick_up_tip p300 None;
     set_flow_rate p300 Aspirate (of_int 9);
     set_flow_rate p300 Dispense (of_int 9)].
Proof.
  intros Hp. unfold add_beads. fold (premix columns). rewrite Hp.
  assert (Hr : exists l, range 1 (columns + 1) = 1 :: l).
  { unfold premix in Hp. apply orb_true_iff in Hp.
    destruct Hp as [Hp|Hp]; apply Z.eqb_eq in Hp; subst;
      eexists; reflexivity. }
  destruct Hr as [l ->]. cbn [for_each].
  apply follows_stop. follows_one. apply follows_stop.
  apply (follows_seq driver _ _ _ [_; _] []); [follows_step|].
  apply follows_custom_mix_well.
Qed.

Lemma follows_remove_liquid columns v_tot :
  follows driver None (remove_liquid driver columns v_tot)
    (flat_map (draining v_tot) (range 1 (columns + 1))).
Proof.
  unfold remove_liquid. apply follows_for_each. intros i _. cbv zeta.
  unfold draining. do 8 follows_one. follows_step.
Qed.

Lemma follows_add_ethanol columns :
  follows driver None (add_ethanol driver columns)
    (flat_map addition (range 1 (columns + 1))).
Proof.
  unfold add_ethanol. apply follows_for_each. intros i _. unfold addition.
  do 2 follows_one.
  apply follows_seq; [|follows_step].
  apply follows_stepwise_dispense. lia.
Qed.

Lemma follows_read_bind fin v (k : Z -> M unit) cs :
  follows driver fin (k v) cs ->
  follows driver fin (bind (read "i" (Some v)) k) cs.
Proof. intros Hk s. unfold follows_at, bind, read, ret. apply Hk. Qed.

Lemma follows_remove_ethanol columns j cleanings i :
  follows driver None (remove_ethanol driver columns j cleanings (Some i))
    ([set_flow_rate p300 Aspirate (of_int 90);
      set_flow_rate p300 Dispense (of_int 100)]
     ++ flat_map (removal j cleanings i) (range 1 (columns + 1))).
Proof.
  unfold remove_ethanol. apply follows_seq; [follows_step|].
  apply follows_for_each. intros k _. cbv zeta. unfold removal.
  do 5 follows_one.
  apply (follows_seq driver _ _ _ [_] _).
  - apply follows_read_bind. follows_step.
  - unfold tip_fate.
    destruct (j <? cleanings); [follows_step|].
    destruct (j =? cleanings); follows_step.
Qed.

Lemma follows_remove_ethanol_none columns j cleanings i :
  columns <= 0 ->
  follows driver None (remove_ethanol driver columns j cleanings i)
    [set_flow_rate p300 Aspirate (of_int 90);
     set_flow_rate p300 Dispense (of_int 100)].
Proof.
  intros Hc. unfold remove_ethanol. rewrite range_empty by lia.
  apply (follows_seq driver _ _ _ [_; _] []); follows_step.
Qed.

Lemma follows_clean columns cleanings i j :
  follows driver None (clean driver columns cleanings i j)
    (cycle columns cleanings j).
Proof.
  unfold clean, cycle. apply follows_seq; [follows_step|].
  apply follows_seq; [apply follows_add_ethanol|]. cbv zeta.
  apply follows_seq; [destruct (columns <? 4); follows_step|].
  destruct (Z_le_gt_dec columns 0) as [Hc|Hc].
  - rewrite (range_empty 1 (columns + 1)) by lia. simpl flat_map.
    rewrite app_nil_r. apply follows_remove_ethanol_none. exact Hc.
  - rewrite after_loop_columns by lia.
    apply follows_remove_ethanol.
Qed.

Lemma follows_add_EB columns vol_EB :
  follows driver None (add_EB driver columns vol_EB)
    (flat_map (elution vol_EB) (range 1 (columns + 1))).
Proof.
  unfold add_EB. apply follows_for_each. intros i _. unfold elution.
  follows_two. do 2 follows_one.
  apply follows_seq; follows_step.
Qed.

Lemma follows_transfer_samples columns vol_EB :
  follows driver None (transfer_samples driver columns vol_EB)
    ([set_flow_rate p10 Aspirate (of_int 3);
      set_flow_rate p10 Dispense (of_int 10)]
     ++ flat_map (handover vol_EB) (range 1 (columns + 1))).
Proof.
  unfold transfer_samples. apply follows_seq; [follows_step|].
  apply follows_for_each. intros i _. unfold handover.
  do 3 follows_one. follows_step.
Qed.

(** The whole run, under any runtime and for any input. *)
Lemma follows_run u : follows driver (ending u) (run driver u) (protocol u).
Proof.
  unfold run, protocol, ending. cbv zeta.
  follows_one.
  apply (follows_seq driver _ _ _ [] _); [follows_step|].
  follows_one.
  destruct (premix (ceil_div8 (no_samples u))) eqn:Hp.
  - apply follows_stop. now apply follows_add_beads_premix.
  - unfold phases.
    apply follows_seq; [now apply follows_add_beads|].
    do 3 follows_one.
    apply follows_seq; [apply follows_remove_liquid|].
    apply follows_seq.
    { apply follows_for_each. intros j _. apply follows_clean. }
    do 2 follows_one.
    apply follows_seq; [apply follows_add_EB|].
    do 2 follows_one.
    rewrite app_assoc.
    apply follows_seq; [apply follows_transfer_samples|].
    follows_one.
    apply (follows_seq driver _ _ _ [_] []); follows_step.
Qed.

End Running.

(** ** The flag [done] *)

Section Flag.

Context {Ar : Arith}.
Variable driver : list command -> command -> bool.

Lemma quiet_ret {T} (v : T) : quiet (ret v).
Proof. intros s. reflexivity. Qed.

Lemma quiet_raise {T} e : quiet (@raise Ar T e).
Proof. intros s. reflexivity. Qed.

Lemma quiet_issue c : quiet (issue driver c).
Proof. intros s. unfold issue. now destruct (driver (trace s) c). Qed.

Lemma quiet_bind {T U} (m : M T) (k : T -> M U) :
  quiet m -> (forall v, quiet (k v)) -> quiet (bind m k).
Proof.
  intros Hm Hk s. unfold bind. specialize (Hm s).
  destruct (m s) as [[v|e] s1]; simpl in *; [|exact Hm].
  now rewrite Hk.
Qed.

Lemma quiet_for_each l body :
  (forall x, quiet (body x)) -> quiet (for_each l body).
Proof.
  intros Hb. induction l as [|x l IH]; simpl.
  - apply quiet_ret.
  - apply quiet_bind; auto.
Qed.

Lemma quiet_aspirate p v loc r : quiet (do_aspirate driver p v loc r).
Proof. intros s. unfold do_aspirate. apply quiet_issue. Qed.

Lemma quiet_dispense p v loc r : quiet (do_dispense driver p v loc r).
Proof. intros s. unfold do_dispense. apply quiet_issue. Qed.

Lemma quiet_assign_aspirate o v : quiet (assign_clearance_aspirate o v).
Proof. intros s. destruct o as [[]|]; reflexivity. Qed.

Lemma quiet_assign_dispense o v : quiet (assign_clearance_dispense o v).
Proof. intros s. destruct o as [[]|]; reflexivity. Qed.

Lemma quiet_call_aspirate o v loc r : quiet (call_aspirate driver o v loc r).
Proof.
  destruct o, loc; simpl;
    first [apply quiet_aspirate | apply quiet_raise].
Qed.

Lemma quiet_call_dispense o v loc r : quiet (call_dispense driver o v loc r).
Proof.
  destruct o, loc; simpl;
    first [apply quiet_dispense | apply quiet_raise].
Qed.

Lemma quiet_read var v : quiet (read var v).
Proof. destruct v; [apply quiet_ret | apply quiet_raise]. Qed.

Ltac quiet_all :=
  repeat first
    [ apply quiet_issue | apply quiet_ret | apply quiet_raise
    | apply quiet_aspirate | apply quiet_dispense
    | apply quiet_assign_aspirate | apply quiet_assign_dispense
    | apply quiet_call_aspirate | apply quiet_call_dispense
    | apply quiet_read
    | apply quiet_bind; [|intros ?]
    | apply quiet_for_each; intros ?
    | match goal with
      | |- quiet (if ?b then _ else _) => destruct b
      end ].

Lemma quiet_flow p a d : quiet (flow driver p a d).
Proof. unfold flow. quiet_all. Qed.

Lemma quiet_custom_mix o repetitions volume o' bottom_aspirate bottom_dispense :
  quiet (custom_mix driver o repetitions volume o'
           bottom_aspirate bottom_dispense).
Proof. unfold custom_mix. quiet_all. Qed.

Lemma quiet_stepwise_dispense p volume w steps :
  quiet (stepwise_dispense driver p volume w steps).
Proof. unfold stepwise_dispense. quiet_all. Qed.

Lemma quiet_add_beads columns vol_samples volBeads :
  quiet (add_beads driver columns vol_samples volBeads).
Proof.
  unfold add_beads.
  repeat first [ apply quiet_flow | apply quiet_custom_mix | progress quiet_all ].
Qed.

Lemma quiet_remove_liquid columns v_tot :
  quiet (remove_liquid driver columns v_tot).
Proof. unfold remove_liquid. quiet_all. Qed.

Lemma quiet_clean columns cleanings i j :
  quiet (clean driver columns cleanings i j).
Proof.
  unfold clean, add_ethanol, remove_ethanol.
  repeat first [ apply quiet_flow | apply quiet_stepwise_dispense
               | progress quiet_all ].
Qed.

Lemma quiet_add_EB columns vol_EB : quiet (add_EB driver columns vol_EB).
Proof.
  unfold add_EB.
  repeat first [ apply quiet_flow | apply quiet_custom_mix | progress quiet_all ].
Qed.

Lemma quiet_transfer_samples columns vol_EB :
  quiet (transfer_samples driver columns vol_EB).
Proof.
  unfold transfer_samples.
  repeat first [ apply quiet_flow | progress quiet_all ].
Qed.

Lemma finishes_set_done : finishes (fun s => (Returns tt, set_done true s)).
Proof. intros s. reflexivity. Qed.

Lemma finishes_seq (m k : M unit) :
  quiet m -> finishes k -> finishes (m ;; k).
Proof.
  intros Hm Hk s. unfold bind. specialize (Hm s).
  destruct (m s) as [[[]|e] s1]; simpl in Hm; [|exact Hm].
  specialize (Hk s1). destruct (k s1) as [[[]|e] s2]; congruence.
Qed.

(** Lines 130-270: what follows the two assignments of lines 97 and 99. *)
Lemma run_flag u s :
  match run driver u s with
  | (Returns _, s') => done s' = true
  | (Raises _, s') => done s' = false \/ done s' = done s
  end.
Proof.
  unfold run. rewrite bind_run.
  pose proof (quiet_issue (set_rail_lights true) s) as H1.
  destruct (issue driver (set_rail_lights true) s) as [[[]|e] s1];
    simpl in H1; [|now right].
  rewrite bind_run. cbv beta iota zeta.
  match goal with |- match ?k ?s2 with _ => _ end =>
    assert (Hf : finishes k)
  end.
  { repeat first
      [ apply finishes_set_done
      | apply finishes_seq;
        [ first [ apply quiet_issue | apply quiet_add_beads
                | apply quiet_remove_liquid | apply quiet_add_EB
                | apply quiet_transfer_samples
                | apply quiet_for_each; intros ?; apply quiet_clean ] |] ]. }
  specialize (Hf (set_done false s1)).
  match goal with |- match ?x with _ => _ end =>
    destruct x as [[[]|e] s3] end; simpl in Hf; [exact Hf | now left].
Qed.

End Flag.

(** ** Reading the commands of a run *)

Section Reading.

Context {Ar : Arith}.

Lemma tips_app on a b :
  tips on (a ++ b)
  = match tips on a with
    | Some on' => tips on' b
    | None => None
    end.
Proof.
  revert on. induction a as [|c a IH]; intros on; [reflexivity|].
  destruct c; cbn [app tips]; try apply IH;
    repeat match goal with
           | |- context [if ?x then _ else _] => destruct x
           end; auto.
Qed.

Lemma tips_prefix on a b : tips on (a ++ b) <> None -> tips on a <> None.
Proof. rewrite tips_app. now destruct (tips on a). Qed.

Lemma tips_flat_map {X} on (f : X -> list command) l :
  (forall x, In x l -> tips on (f x) = Some on) ->
  tips on (flat_map f l) = Some on.
Proof.
  induction l as [|x l IH]; intros Hf; [reflexivity|].
  cbn [flat_map]. rewrite tips_app, Hf by now left.
  apply IH. intros y Hy. apply Hf. now right.
Qed.

Lemma tips_mixing b volume w bottom_aspirate bottom_dispense (l : list Z) :
  tips (true, b) (flat_map (fun _ =>
    mixing p300 volume w bottom_aspirate bottom_dispense) l) = Some (true, b).
Proof. apply tips_flat_map. intros _ _. reflexivity. Qed.

Lemma tips_binding b vol_samples volBeads i :
  tips (false, b) (binding vol_samples volBeads i) = Some (false, b).
Proof.
  unfold binding. rewrite tips_app. cbn [tips fst snd].
  rewrite tips_app, (tips_mixing b). reflexivity.
Qed.

Lemma tips_draining b v_tot i :
  tips (false, b) (draining v_tot i) = Some (false, b).
Proof. reflexivity. Qed.

Lemma tips_steps b v (loc : Z -> location) (l : list Z) :
  tips (true, b) (map (fun n => dispense p300 v (loc n) None) l)
  = Some (true, b).
Proof. induction l as [|x l IH]; [reflexivity|]. cbn [map tips fst]. exact IH. Qed.

Lemma tips_addition b i : tips (false, b) (addition i) = Some (false, b).
Proof.
  unfold addition. rewrite tips_app. cbn [tips fst snd].
  rewrite tips_app.
  rewrite (tips_steps b _
             (fun n => bottom (Well sample_plate (A i))
                         (dispense_height
                            (of_int n * (of_int 190 / of_int 10))%num))).
  reflexivity.
Qed.

Lemma tips_removal b j cleanings i k :
  1 <= j <= cleanings ->
  tips (false, b) (removal j cleanings i k) = Some (false, b).
Proof.
  intros Hj. unfold removal, tip_fate. cbv zeta.
  rewrite tips_app. cbn [tips fst snd].
  destruct (Z.ltb_spec j cleanings); [reflexivity|].
  replace (j =? cleanings) with true by (symmetry; apply Z.eqb_eq; lia).
  reflexivity.
Qed.

Lemma tips_cycle b columns cleanings j :
  1 <= j <= cleanings ->
  tips (false, b) (cycle columns cleanings j) = Some (false, b).
Proof.
  intros Hj. unfold cycle. rewrite tips_app. cbn [tips].
  rewrite tips_app, tips_flat_map by (intros; apply tips_addition).
  rewrite tips_app.
  replace (tips (false, b) (if columns <? 4 then [delay_seconds 30] else []))
    with (Some (false, b)) by now destruct (columns <? 4).
  rewrite tips_app. cbn [tips].
  apply tips_flat_map. intros k _. now apply tips_removal.
Qed.

Lemma tips_elution b vol_EB i :
  tips (false, b) (elution vol_EB i) = Some (false, b).
Proof.
  unfold elution. rewrite tips_app. cbn [tips fst snd].
  rewrite tips_app, (tips_mixing b). reflexivity.
Qed.

Lemma tips_handover a vol_EB i :
  tips (a, false) (handover vol_EB i) = Some (a, false).
Proof. reflexivity. Qed.

Lemma tips_phases u : tips (false, false) (phases u) = Some (false, false).
Proof.
  unfold phases. cbv zeta.
  rewrite tips_app, tips_flat_map by (intros; apply tips_binding).
  rewrite tips_app. cbn [tips].
  rewrite tips_app, tips_flat_map by (intros; apply tips_draining).
  rewrite tips_app, tips_flat_map
    by (intros j Hj; apply tips_cycle; apply in_range in Hj; lia).
  rewrite tips_app. cbn [tips].
  rewrite tips_app, tips_flat_map by (intros; apply tips_elution).
  rewrite tips_app. cbn [tips].
  rewrite tips_app. cbn [tips].
  rewrite tips_app, tips_flat_map by (intros; apply tips_handover).
  reflexivity.
Qed.

Lemma tips_protocol u :
  tips (false, false) (protocol u)
  = Some (premix (ceil_div8 (no_samples u)), false).
Proof.
  unfold protocol. rewrite tips_app. cbn [tips].
  destruct (premix (ceil_div8 (no_samples u))); [reflexivity|].
  apply tips_phases.
Qed.

End Reading.

Section Tallies.

Context {Ar : Arith}.


Lemma flat_map_none {X Y} (g : X -> list Y) l :
  Forall (fun x => g x = []) l -> flat_map g l = [].
Proof.
  induction 1 as [|x l Hx _ IH]; [reflexivity|].
  cbn [flat_map]. now rewrite Hx, IH.
Qed.


(** *** The magnet *)





(** *** The delays *)







(** *** The trash plate *)




(** *** No sample *)

Lemma pipetting_app a b : pipetting (a ++ b) = pipetting a ++ pipetting b.
Proof. apply flat_map_app. Qed.

Lemma pipetting_phases_empty u :
  ceil_div8 (no_samples u) <= 0 -> pipetting (phases u) = [].
Proof.
  intros Hc. unfold phases. cbv zeta.
  rewrite (range_empty 1 (ceil_div8 (no_samples u) + 1)) by lia.
  rewrite !pipetting_app.
  replace (pipetting (flat_map _ (range 1 (cleanings u + 1)))) with
    (@nil command); [reflexivity|].
  symmetry. unfold pipetting. rewrite flat_map_flat_map.
  apply flat_map_none, Forall_forall. intros j _.
  unfold cycle. rewrite (range_empty 1 (ceil_div8 (no_samples u) + 1)) by lia.
  now destruct (ceil_div8 (no_samples u) <? 4).
Qed.

End Tallies.

(** * Further properties *)

(** ** [get_values] *)

Lemma subscript_all_values n :
  subscript _all_values n
  = if String.eqb "mag_mod" n then inl "magnetic module"%string else inr n.
Proof. reflexivity. Qed.

(** X1: [get_values] returns exactly when every name asked for is
    "mag_mod", with "magnetic module" for each of them; otherwise it raises
    KeyError for the first name that is not "mag_mod". *)
Theorem get_values_keys (names : list string) :
  match get_values names with
  | Values vs =>
      Forall (eq "mag_mod"%string) names
      /\ vs = map (fun _ => "magnetic module"%string) names
  | KeyError key =>
      exists pre post,
        names = pre ++ key :: post
        /\ Forall (eq "mag_mod"%string) pre
        /\ key <> "mag_mod"%string
  end.
Proof.
  induction names as [|n names IH]; [simpl; auto|].
  cbn [get_values]. rewrite subscript_all_values.
  destruct (String.eqb_spec "mag_mod" n) as [<-|Hn].
  - destruct (get_values names) as [vs|key].
    + destruct IH as [Hall ->]. split; [now constructor | reflexivity].
    + destruct IH as (pre & post & -> & Hpre & Hkey).
      exists ("mag_mod"%string :: pre), post.
      split; [reflexivity|]. split; [now constructor | exact Hkey].
  - exists [], names. split; [reflexivity|]. split; [constructor | congruence].
Qed.

(** ** The number of columns *)

(** X2: for a sample count of at most 2^53 in absolute value (where the
    quotient [no_samples / 8] is exact in binary64, so that [math.ceil] of it
    is the integer ceiling), the number of columns is the least number of
    groups of 8 wells that hold all the samples. *)
Theorem columns_cover_samples (n : Z) :
  Z.abs n <= 2 ^ 53 ->
  n <= 8 * ceil_div8 n /\ forall c, n <= 8 * c -> ceil_div8 n <= c.
Proof.
  intros _. pose proof (ceil_div8_spec n) as H.
  split; [lia|]. intros c Hc. lia.
Qed.

Lemma columns_cover_samples_witness :
  Z.abs 20 <= 2 ^ 53
  /\ 20 <= 8 * ceil_div8 20
  /\ forall c, 20 <= 8 * c -> ceil_div8 20 <= c.
Proof.
  split; [vm_compute; discriminate|].
  apply (columns_cover_samples 20). vm_compute. discriminate.
Defined.

Lemma premix_samples (n : Z) :
  premix (ceil_div8 n) = true <-> 1 <= n <= 8 \/ 41 <= n <= 48.
Proof.
  pose proof (ceil_div8_spec n) as H. unfold premix.
  rewrite orb_true_iff, !Z.eqb_eq. lia.
Qed.

(** ** The estimated level *)

Lemma dispense_height_strict (a b : R) :
  (0 <= a)%R -> (a < b)%R ->
  (@dispense_height Exact a < @dispense_height Exact b)%R.
Proof.
  intros Ha Hab. rewrite !dispense_height_exact.
  apply Rplus_lt_compat_r, Rplus_lt_compat_l, sqrt_lt_1_alt. lra.
Qed.

(** X3: in exact arithmetic and for V >= 0, the level h estimated for the
    volume V (the dispense height less its 1 mm margin) is the positive root
    of the polynomial h^2 + 5 h - 4.9 = 1.42 V that relates height and
    volume. *)
Theorem level_inverts_polynomial (V : R) :
  (0 <= V)%R ->
  let h := (@dispense_height Exact V - 1)%R in
  (h * h + 5 * h - 4.9 = 1.42 * V)%R /\ (0 < h)%R.
Proof.
  intros HV h. unfold h. rewrite dispense_height_exact.
  set (r := R_sqrt.sqrt (2.5 * 2.5 + 4.9 + 1.42 * V)).
  assert (Hr : (r * r = 2.5 * 2.5 + 4.9 + 1.42 * V)%R)
    by (apply sqrt_sqrt; lra).
  assert (Hp : (2.5 < r)%R).
  { unfold r. rewrite <- (sqrt_square 2.5) at 1 by lra.
    apply sqrt_lt_1_alt. lra. }
  split; nra.
Qed.

Lemma level_inverts_polynomial_witness :
  (0 <= 190)%R /\
  let h := (@dispense_height Exact 190 - 1)%R in
  (h * h + 5 * h - 4.9 = 1.42 * 190)%R /\ (0 < h)%R.
Proof.
  split; [lra|]. apply (level_inverts_polynomial 190). lra.
Defined.

(** ** [stepwise_dispense] at its edges and under any runtime *)

Lemma heights_steps `{Arith} (p : pipette) (v : num) (w : well)
    (h : Z -> num) (l : list Z) :
  heights (map (fun i => dispense p v (bottom w (h i)) None) l) = map h l.
Proof. induction l as [|x l IH]; simpl; congruence. Qed.

Lemma sorted_steps {X} (lt : X -> X -> Prop) (h : Z -> X) (k : nat) :
  forall lo,
  (forall i, lo <= i -> lt (h i) (h (i + 1))) ->
  Sorted lt (map h (map (fun n => lo + Z.of_nat n) (seq 0 k))).
Proof.
  induction k as [|k IH]; intros lo Hh; [constructor|].
  cbn [seq map]. rewrite <- seq_shift, !map_map.
  assert (E : map (fun n => h (lo + Z.of_nat (S n))) (seq 0 k)
              = map h (map (fun n => (lo + 1) + Z.of_nat n) (seq 0 k))).
  { rewrite map_map. apply map_ext. intros n. f_equal. lia. }
  rewrite E. constructor.
  - apply IH. intros i Hi. apply Hh. lia.
  - destruct k as [|k]; [constructor|].
    cbn [seq map]. constructor.
    replace (lo + Z.of_nat 0) with lo by lia.
    replace (lo + 1 + Z.of_nat 0) with (lo + 1) by lia.
    apply Hh. lia.
Qed.

(** X4: in exact arithmetic, under a runtime that carries out every
    command, a [stepwise_dispense] of a volume V > 0 in S >= 1 steps moves
    strictly upwards from one dispense to the next, and makes its last
    dispense at the height estimated for the whole volume V. *)
Theorem stepwise_dispense_rises
    (driver : list command -> command -> bool)
    (pipette : pipette) (V : R) (w : well) (S : Z) (s : @robot Exact) :
  @accepting Exact driver -> (0 < V)%R -> 1 <= S ->
  exists cs,
    @stepwise_dispense Exact driver pipette V w S s = (Returns tt, emit s cs)
    /\ Sorted Rlt (@heights Exact cs)
    /\ last (@heights Exact cs) 0%R = @dispense_height Exact V.
Proof.
  intros Hacc HV HS. eexists.
  split; [apply (emits_stepwise_dispense driver Hacc); lia|].
  rewrite (@heights_steps Exact pipette _ w
             (fun i => @dispense_height Exact (IZR i * (V / IZR S))%R)).
  assert (Hq : (0 < V / IZR S)%R).
  { apply Rdiv_lt_0_compat; [exact HV|]. apply IZR_lt. lia. }
  split.
  - apply (sorted_steps Rlt). intros i Hi.
    apply dispense_height_strict.
    + apply Rmult_le_pos; [apply IZR_le; lia | lra].
    + apply Rmult_lt_compat_r; [exact Hq|]. apply IZR_lt. lia.
  - rewrite range_snoc by lia. rewrite map_app. cbn [map].
    rewrite last_last. f_equal. simpl. field.
    apply not_0_IZR. lia.
Qed.

Lemma stepwise_dispense_rises_witness :
  @accepting Exact obliging /\ (0 < 190)%R /\ 1 <= 10 /\
  exists cs,
    @stepwise_dispense Exact obliging p300 190%R (Well sample_plate "A1") 10
      init = (Returns tt, emit init cs)
    /\ Sorted Rlt (@heights Exact cs)
    /\ last (@heights Exact cs) 0%R = @dispense_height Exact 190%R.
Proof.
  split; [apply obliging_accepts|]. split; [lra|]. split; [lia|].
  apply (stepwise_dispense_rises obliging p300 190%R
           (Well sample_plate "A1") 10 init);
    [apply obliging_accepts | lra | lia].
Defined.

(** X5: with a step count of 0 [stepwise_dispense] raises
    ZeroDivisionError, and with a negative one it returns; in both cases,
    whatever the runtime, no command is issued and the robot is left as it
    was. *)
Theorem stepwise_dispense_no_step `{Arith}
    (driver : list command -> command -> bool)
    (pipette : pipette) (V : num) (w : well) (S : Z) (s : robot) :
  S <= 0 ->
  stepwise_dispense driver pipette V w S s
  = (if S =? 0 then Raises ZeroDivisionError else Returns tt, s).
Proof.
  intros HS. unfold stepwise_dispense.
  destruct (S =? 0); [reflexivity|].
  now rewrite range_empty by lia.
Qed.

Lemma stepwise_dispense_no_step_witness :
  -3 <= 0 /\
  @stepwise_dispense Binary64 jammed p300 (of_int 190)
    (Well sample_plate "A1") (-3) init
  = (if -3 =? 0 then Raises ZeroDivisionError else Returns tt, init).
Proof.
  split; [lia|].
  apply (@stepwise_dispense_no_step Binary64 jammed p300 (of_int 190)
           (Well sample_plate "A1") (-3) init).
  lia.
Defined.

(** X6: under any runtime, [stepwise_dispense] with S >= 1 steps issues its
    S dispenses in order and stops at the first one the runtime refuses,
    raising that fault; it returns only when all S have been carried out. *)
Theorem stepwise_dispense_stops_at_fault `{Arith}
    (driver : list command -> command -> bool)
    (pipette : pipette) (V : num) (w : well) (S : Z) :
  1 <= S ->
  follows driver None (stepwise_dispense driver pipette V w S)
    (map (fun i =>
            dispense pipette (V / of_int S)%num
              (bottom w (dispense_height (of_int i * (V / of_int S))%num))
              None)
         (range 1 (S + 1))).
Proof. intros HS. apply follows_stepwise_dispense. lia. Qed.

Lemma stepwise_dispense_stops_at_fault_witness :
  1 <= 10 /\
  follows (@jammed Binary64) None
    (stepwise_dispense jammed p300 (of_int 190) (Well sample_plate "A1") 10)
    (map (fun i =>
            dispense p300 (of_int 190 / of_int 10)%num
              (bottom (Well sample_plate "A1")
                 (dispense_height (of_int i * (of_int 190 / of_int 10))%num))
              None)
         (range 1 (10 + 1))).
Proof.
  split; [lia|].
  apply (@stepwise_dispense_stops_at_fault Binary64 jammed p300 (of_int 190)
           (Well sample_plate "A1") 10).
  lia.
Defined.

(** ** [custom_mix] at its edges and under any runtime *)

(** X7: under a runtime that carries out every command, [custom_mix] on a
    pipette and a well returns after exactly [repetitions] rounds of one
    aspirate at [bottom_aspirate] mm and one dispense at [bottom_dispense]
    mm above the bottom of that well, each of [volume], and leaves the
    pipette's clearances at the default and the rest of the robot as it
    was. *)
Theorem custom_mix_rounds `{Arith}
    (driver : list command -> command -> bool)
    (p : pipette) (repetitions : Z) (volume : num) (w : well)
    (bottom_aspirate bottom_dispense : num) (s : robot) :
  accepting driver ->
  custom_mix driver (PipetteObj p) repetitions volume (WellObj w)
    bottom_aspirate bottom_dispense s
  = (Returns tt,
     emit (set_clearance p default_clearance s)
       (flat_map (fun _ =>
          [aspirate p volume (bottom w bottom_aspirate) (Some (of_int 1));
           dispense p volume (bottom w bottom_dispense) (Some (of_int 1))])
          (range 0 repetitions)))
  /\ List.length (range 0 repetitions) = Z.to_nat repetitions.
Proof.
  intros Hacc. split.
  - apply (custom_mix_mixes driver Hacc).
  - rewrite range_length. f_equal. lia.
Qed.

Lemma custom_mix_rounds_witness :
  accepting (@obliging Binary64) /\
  @custom_mix Binary64 obliging (PipetteObj p300) 15 (of_int 26)
    (WellObj (Well sample_plate "A1")) (frac 6 10) (of_int 3) init
  = (Returns tt,
     emit (set_clearance p300 default_clearance init)
       (flat_map (fun _ =>
          [aspirate p300 (of_int 26)
             (bottom (Well sample_plate "A1") (frac 6 10)) (Some (of_int 1));
           dispense p300 (of_int 26)
             (bottom (Well sample_plate "A1") (of_int 3)) (Some (of_int 1))])
          (range 0 15)))
  /\ List.length (range 0 15) = Z.to_nat 15.
Proof.
  split; [apply obliging_accepts|].
  apply (@custom_mix_rounds Binary64 obliging p300 15 (of_int 26)
           (Well sample_plate "A1") (frac 6 10) (of_int 3) init).
  apply obliging_accepts.
Defined.

(** X8: with a repetition count of 0 or less, [custom_mix] on a pipette and
    a well issues no command: whatever the runtime, it returns, and all it
    does is set the pipette's clearances to the default. *)
Theorem custom_mix_no_repetition `{Arith}
    (driver : list command -> command -> bool)
    (p : pipette) (repetitions : Z) (volume : num) (w : well)
    (bottom_aspirate bottom_dispense : num) (s : robot) :
  repetitions <= 0 ->
  custom_mix driver (PipetteObj p) repetitions volume (WellObj w)
    bottom_aspirate bottom_dispense s
  = (Returns tt, set_clearance p default_clearance s).
Proof.
  intros Hr. unfold custom_mix. rewrite range_empty by lia.
  destruct p; reflexivity.
Qed.

Lemma custom_mix_no_repetition_witness :
  0 <= 0 /\
  @custom_mix Binary64 jammed (PipetteObj p10) 0 (of_int 15)
    (WellObj (Well sample_plate "A1")) (of_int 3) (of_int 6) init
  = (Returns tt, set_clearance p10 default_clearance init).
Proof.
  split; [lia|].
  apply (@custom_mix_no_repetition Binary64 jammed p10 0 (of_int 15)
           (Well sample_plate "A1") (of_int 3) (of_int 6) init).
  lia.
Defined.

(** X9: under any runtime, [custom_mix] on a pipette and a well issues its
    aspirates and dispenses in order, alternating, and stops at the first
    one the runtime refuses, raising that fault; it never raises anything
    else, and returns only when all of them have been carried out. *)
Theorem custom_mix_stops_at_fault `{Arith}
    (driver : list command -> command -> bool)
    (p : pipette) (repetitions : Z) (volume : num) (w : well)
    (bottom_aspirate bottom_dispense : num) :
  follows driver None
    (custom_mix driver (PipetteObj p) repetitions volume (WellObj w)
       bottom_aspirate bottom_dispense)
    (flat_map (fun _ =>
       [aspirate p volume (bottom w bottom_aspirate) (Some (of_int 1));
        dispense p volume (bottom w bottom_dispense) (Some (of_int 1))])
       (range 0 repetitions)).
Proof. apply follows_custom_mix. Qed.

(** ** The whole run *)

Section Whole.

Context {Ar : Arith}.
Variable driver : list command -> command -> bool.


End Whole.

Lemma premix_columns (columns : Z) :
  premix columns = false <-> columns <> 1 /\ columns <> 6.
Proof.
  unfold premix. rewrite orb_false_iff, !Z.eqb_neq. tauto.
Qed.



(** X11: under a runtime that carries out every command, a run for 1 to 8
    or 41 to 48 samples (1 or 6 columns) raises AttributeError at the
    pre-mix of line 161, whatever the volumes: it has switched the lights
    on, disengaged the magnet, picked up one tip and set the flow rates to 9,
    and has moved no liquid. *)
Theorem run_raises_at_premix `{Arith}
    (driver : list command -> command -> bool) (u : parameters) (s : robot) :
  accepting driver ->
  1 <= no_samples u <= 8 \/ 41 <= no_samples u <= 48 ->
  run driver u s
  = (Raises (AttributeError "well_bottom_clearance"),
     set_done false
       (emit s [set_rail_lights true;
                disengage;
                pick_up_tip p300 None;
                set_flow_rate p300 Aspirate (of_int 9);
                set_flow_rate p300 Dispense (of_int 9)])).
Proof.
  intros Hacc Hn. apply premix_samples in Hn.
  assert (Hc : ceil_div8 (no_samples u) = 1 \/ ceil_div8 (no_samples u) = 6).
  { unfold premix in Hn. apply orb_true_iff in Hn.
    rewrite !Z.eqb_eq in Hn. exact Hn. }
  unfold run.
  erewrite bind_returns by apply (emits_issue driver Hacc).
  erewrite bind_returns by reflexivity.
  erewrite bind_returns by apply (emits_issue driver Hacc).
  cbv zeta. erewrite bind_raises
    by (apply (add_beads_premix_raises driver); assumption).
  f_equal. unfold emit, set_done. cbn [clr_p300 clr_p10 done trace].
  now rewrite <- !app_assoc.
Qed.

Lemma run_raises_at_premix_witness :
  accepting (@obliging Binary64) /\
  (1 <= no_samples (@Parameters Binary64 45 (of_int 20) (frac 8 10) 1 (of_int 15))
   <= 8
   \/ 41 <= no_samples (@Parameters Binary64 45 (of_int 20) (frac 8 10) 1
                          (of_int 15)) <= 48) /\
  @run Binary64 obliging
    (Parameters 45 (of_int 20) (frac 8 10) 1 (of_int 15)) init
  = (Raises (AttributeError "well_bottom_clearance"),
     set_done false
       (emit init [set_rail_lights true;
                   disengage;
                   pick_up_tip p300 None;
                   set_flow_rate p300 Aspirate (of_int 9);
                   set_flow_rate p300 Dispense (of_int 9)])).
Proof.
  split; [apply obliging_accepts|]. split; [right; simpl; lia|].
  apply (@run_raises_at_premix Binary64 obliging
           (Parameters 45 (of_int 20) (frac 8 10) 1 (of_int 15)) init);
    [apply obliging_accepts | right; simpl; lia].
Defined.



(** X13: whatever the runtime and the input, a run started with [done]
    clear ends with [done] set when it returns and with [done] clear when it
    raises. *)
Theorem run_sets_done_on_return `{Arith}
    (driver : list command -> command -> bool) (u : parameters) (s : robot) :
  done s = false ->
  match run driver u s with
  | (Returns _, s') => done s' = true
  | (Raises _, s') => done s' = false
  end.
Proof.
  intros Hs. pose proof (run_flag driver u s) as Hd.
  destruct (run driver u s) as [[[]|e] s']; [exact Hd|].
  destruct Hd; congruence.
Qed.

Lemma run_sets_done_on_return_witness :
  done (@init Binary64) = false /\
  match @run Binary64 jammed defaults init with
  | (Returns _, s') => done s' = true
  | (Raises _, s') => done s' = false
  end.
Proof.
  split; [reflexivity|].
  apply (@run_sets_done_on_return Binary64 jammed defaults init).
  reflexivity.
Defined.

(** X14: whatever the runtime and the input, a run never picks up a tip
    onto a pipette that has one, never puts away a tip a pipette has not
    got, and never aspirates, dispenses, blows out or transfers with a bare
    pipette; when it returns, both pipettes are bare. *)
Theorem run_handles_tips_in_order `{Arith}
    (driver : list command -> command -> bool) (u : parameters) (s : robot) :
  exists cs,
    trace (snd (run driver u s)) = trace s ++ cs
    /\ match fst (run driver u s) with
       | Returns _ => tips (false, false) cs = Some (false, false)
       | Raises _ => tips (false, false) cs <> None
       end.
Proof.
  pose proof (follows_run driver u s) as Hf. unfold follows_at in Hf.
  pose proof (tips_protocol u) as Ht.
  destruct (run driver u s) as [[[]|e] s']; cbn [fst snd].
  - destruct Hf as [He Hs]. exists (protocol u). split; [exact Hs|].
    unfold ending in He.
    destruct (premix (ceil_div8 (no_samples u))); [discriminate He|].
    exact Ht.
  - destruct Hf as [(pre & c & post & Hp & Hs & _ & _) | [_ Hs]].
    + exists pre. split; [exact Hs|].
      apply (tips_prefix _ pre (c :: post)). rewrite <- Hp, Ht. discriminate.
    + exists (protocol u). split; [exact Hs|]. rewrite Ht. discriminate.
Qed.







(** X18: with no sample (a sample count of 0 or less) a run, whatever the
    runtime, picks up no tip and moves no liquid: all it issues is lights,
    magnet, delays, flow rates and homing. *)
Theorem run_without_samples `{Arith}
    (driver : list command -> command -> bool) (u : parameters) (s : robot) :
  no_samples u <= 0 ->
  exists cs,
    trace (snd (run driver u s)) = trace s ++ cs /\ pipetting cs = [].
Proof.
  intros Hn.
  pose proof (ceil_div8_spec (no_samples u)) as Hc.
  assert (Hp : premix (ceil_div8 (no_samples u)) = false)
    by (apply premix_columns; lia).
  assert (Hq : pipetting (protocol u) = []).
  { unfold protocol. rewrite Hp, pipetting_app.
    rewrite pipetting_phases_empty by lia. reflexivity. }
  pose proof (follows_run driver u s) as Hf. unfold follows_at in Hf.
  destruct (run driver u s) as [[[]|e] s']; cbn [snd].
  - destruct Hf as [_ Hs]. now exists (protocol u).
  - destruct Hf as [(pre & c & post & Hpre & Hs & _ & _) | [_ Hs]].
    + exists pre. split; [exact Hs|].
      rewrite Hpre, pipetting_app in Hq. now apply app_eq_nil in Hq.
    + now exists (protocol u).
Qed.

Lemma run_without_samples_witness :
  no_samples (@Parameters Binary64 0 (of_int 20) (frac 8 10) 1 (of_int 15)) <= 0
  /\ exists cs,
       trace (snd (@run Binary64 obliging
                     (Parameters 0 (of_int 20) (frac 8 10) 1 (of_int 15)) init))
       = trace init ++ cs
       /\ pipetting cs = [].
Proof.
  split; [simpl; lia|].
  apply (@run_without_samples Binary64 obliging
           (Parameters 0 (of_int 20) (frac 8 10) 1 (of_int 15)) init).
  simpl. lia.
Defined.

(** ** The door monitor over many passes *)

Module MonitorRuns.
Import Monitor.

Lemma alternates_app paused a b :
  alternates paused (a ++ b)
  = match alternates paused a with
    | Some paused' => alternates paused' b
    | None => None
    end.
Proof.
  revert paused. induction a as [|e a IH]; intros paused; [reflexivity|].
  destruct e, paused; cbn [app alternates]; auto.
Qed.

Lemma check_once_alternates o paused :
  alternates paused (snd (check_once o paused))
  = Some (fst (check_once o paused)).
Proof.
  unfold check_once.
  destruct paused, (door_closed_104 o), (door_closed_108 o),
    (door_closed_112 o); reflexivity.
Qed.

(** X19: whatever the door does, over any number of passes the monitor
    calls [pause] only with [paused] clear and [resume] only with [paused]
    set, so that the two calls alternate, and [paused] ends as the last of
    them left it. *)
Theorem check_pause_alternates (world : list observation) (paused : bool) :
  alternates paused (snd (check_pause world paused))
  = Some (fst (check_pause world paused)).
Proof.
  revert paused. induction world as [|o world IH]; intros paused;
    [reflexivity|].
  cbn [check_pause].
  pose proof (check_once_alternates o paused) as H1.
  destruct (check_once o paused) as [p1 es1]. cbn [fst snd] in H1.
  destruct (negb (done_120 o) && negb (negb (main_alive o))).
  - specialize (IH p1).
    destruct (check_pause world p1) as [p2 es2]. cbn [fst snd] in *.
    now rewrite alternates_app, H1.
  - exact H1.
Qed.

(** X20: the pass that finds [done] set or the main thread dead is the
    last: what the world does after it is never looked at. *)
Theorem check_pause_stops (pre post : list observation) (o : observation)
    (paused : bool) :
  done_120 o = true \/ main_alive o = false ->
  check_pause (pre ++ o :: post) paused = check_pause (pre ++ [o]) paused.
Proof.
  intros Ho. revert paused.
  induction pre as [|o' pre IH]; intros paused; cbn [app check_pause].
  - destruct (check_once o paused) as [p1 es1].
    replace (negb (done_120 o) && negb (negb (main_alive o))) with false
      by (destruct Ho as [-> | ->]; [reflexivity | now rewrite andb_false_r]).
    reflexivity.
  - destruct (check_once o' paused) as [p1 es1].
    destruct (negb (done_120 o') && negb (negb (main_alive o')));
      [|reflexivity].
    now rewrite IH.
Qed.

Lemma check_pause_stops_witness :
  (done_120 (Observation true true true true true) = true
   \/ main_alive (Observation true true true true true) = false)
  /\ check_pause
       ([Observation false false false false true]
        ++ Observation true true true true true
           :: [Observation false false false false true]) false
     = check_pause
         ([Observation false false false false true]
          ++ [Observation true true true true true]) false.
Proof.
  split; [left; reflexivity|].
  apply (check_pause_stops [Observation false false false false true]
           [Observation false false false false true]
           (Observation true true true true true) false).
  left. reflexivity.
Defined.

Lemma check_once_door o paused closed :
  door o closed ->
  check_once o paused
  = (if closed then false else true,
     (if negb paused && negb closed then [pause] else [])
     ++ (if paused && closed then [resume] else [])
     ++ (if negb closed then [print notice] else [])
     ++ [sleep 1]).
Proof.
  intros (H1 & H2 & H3). unfold check_once. rewrite H1, H2, H3.
  destruct paused, closed; reflexivity.
Qed.

Lemma check_pause_settled (closed : bool) (world : list observation) :
  Forall (fun o => door o closed) world ->
  fst (check_pause world (negb closed)) = negb closed
  /\ filter is_pause (snd (check_pause world (negb closed))) = []
  /\ filter is_resume (snd (check_pause world (negb closed))) = [].
Proof.
  induction 1 as [|o world Ho _ IH]; [simpl; auto|].
  cbn [check_pause]. rewrite (check_once_door o (negb closed) closed Ho).
  replace (if closed then false else true) with (negb closed)
    by now destruct closed.
  destruct (negb (done_120 o) && negb (negb (main_alive o))).
  - destruct IH as (Hf & Hp & Hr).
    destruct (check_pause world (negb closed)) as [p es]. cbn [fst snd] in *.
    split; [exact Hf|]. rewrite !filter_app, Hp, Hr.
    destruct closed; auto.
  - destruct closed; auto.
Qed.

(** X21: when the door reads the same, open or closed, at every read of
    every pass, a monitor that makes at least one pass brings [paused] in
    line with the door with at most one call: one [pause] and no [resume]
    when it starts unpaused with the door open, one [resume] and no [pause]
    when it starts paused with the door closed. *)
Theorem check_pause_settles_once (closed : bool) (world : list observation) :
  world <> [] ->
  Forall (fun o => door o closed) world ->
  fst (check_pause world closed) = negb closed
  /\ filter is_pause (snd (check_pause world closed))
     = (if closed then [] else [pause])
  /\ filter is_resume (snd (check_pause world closed))
     = (if closed then [resume] else []).
Proof.
  destruct world as [|o world]; [congruence|]. intros _ Hw.
  inversion Hw as [|? ? Ho Hw']; subst.
  cbn [check_pause]. rewrite (check_once_door o closed closed Ho).
  replace (if closed then false else true) with (negb closed)
    by now destruct closed.
  destruct (negb (done_120 o) && negb (negb (main_alive o))).
  - destruct (check_pause_settled closed world Hw') as (Hf & Hp & Hr).
    destruct (check_pause world (negb closed)) as [p es]. cbn [fst snd] in *.
    split; [exact Hf|]. rewrite !filter_app, Hp, Hr.
    destruct closed; auto.
  - destruct closed; auto.
Qed.

Lemma check_pause_settles_once_witness :
  [Observation true true true false true;
   Observation true true true true true] <> []
  /\ Forall (fun o => door o true)
       [Observation true true true false true;
        Observation true true true true true]
  /\ fst (check_pause [Observation true true true false true;
                       Observation true true true true true] true)
     = negb true
  /\ filter is_pause
       (snd (check_pause [Observation true true true false true;
                          Observation true true true true true] true))
     = []
  /\ filter is_resume
       (snd (check_pause [Observation true true true false true;
                          Observation true true true true true] true))
     = [resume].
Proof.
  split; [discriminate|].
  split; [repeat constructor|].
  apply (check_pause_settles_once true
           [Observation true true true false true;
            Observation true true true true true]);
    [discriminate | repeat constructor].
Defined.

End MonitorRuns.

(** * The phases inside the run *)


(** ** Removing the supernatant *)




(** ** The tips of the cleaning cycles *)



